(** * Resumable chunked upload stream of ews-mail-ingest

    Shallow embedding of the two [GCSObjectStreamUpload] classes
    (src/cloud_function/storage/base.py and
    src/functions/ews-mail-ingest/main.py) and of the way they drive a
    resumable upload.  Python integers are [Z], byte strings are lists of
    [byte], an object is a record that is passed and returned, and a raised
    exception is an [outcome] next to the state the call leaves behind. *)

From Stdlib Require Import ZArith List Lia Bool String.
From Stdlib Require Import Init.Byte.
From Stdlib Require Import Ascii.
From Stdlib Require Decimal DecimalFacts DecimalNat DecimalString.
Import ListNotations.
Open Scope Z_scope.

Set Implicit Arguments.

(** ** Python values *)

Definition bytes := list byte.

(** [len(x)] of a Python sequence. *)
Definition len {A : Type} (l : list A) : Z := Z.of_nat (List.length l).

(** Where a slice bound [i] lands in a sequence of [n] items: a negative
    bound counts from the end, and the result is clamped to [0..n]. *)
Definition py_index (i n : Z) : Z :=
  if i <? 0 then Z.max (i + n) 0 else Z.min i n.

(** [b[i:]] *)
Definition slice_from (i : Z) (b : bytes) : bytes :=
  skipn (Z.to_nat (py_index i (len b))) b.

(** [b[:i]] *)
Definition slice_to (i : Z) (b : bytes) : bytes :=
  firstn (Z.to_nat (py_index i (len b))) b.

(** Exceptions that cross the stream's methods. [InvalidResponse] is
    [common.InvalidResponse]; [TransportError] stands for any other error the
    transport raises; [AttributeError] is the use of a method that the object
    at hand does not have, [None] included; [ValueError] is a call the upload
    object refuses. *)
Inductive exn : Type :=
| InvalidResponse
| TransportError
| AttributeError
| ValueError.

Inductive outcome (A : Type) : Type :=
| Return (a : A)
| Raise (e : exn).

Arguments Return {A} a.
Arguments Raise {A} e.

(** ** The transport and the resumable-upload object

    [google.resumable_media] and [AuthorizedSession] are not part of the
    repository; the stream only calls them. *)

(** What the backend answers to one chunk request. *)
Inductive response : Type :=
| Accepted
| Rejected
| Failed.

(** Modelled from the spec: the transport of section 6, which is missing from
    the sources. It is the backend seen from the client: the answer to the
    k-th chunk request of a session. [Rejected] is the invalid-response class
    of section 7, [Failed] a fatal transport error. *)
Definition AuthorizedSession : Type := nat -> response.

(** One chunk request as the backend sees it. *)
Record transmission : Type := {
  start_byte : Z;
  payload : bytes;
  final : bool;
  reply : response
}.

(** The pull interface the upload object needs from its [stream] argument:
    [read] and [tell], and [seek] when the class of the stream defines it. *)
Class Stream (S : Type) : Type := {
  stream_read : Z -> S -> bytes * S;
  stream_tell : S -> Z;
  stream_seek : option (Z -> S -> S)
}.

Module ResumableUpload.

(** The upload object. Next to its own fields it carries two records of
    what happened to it: [sent], the chunk requests it has made, oldest
    first, and [recoveries], how many times [recover] went to the backend. *)
Record t : Type := {
  upload_url : string;
  chunk_size : Z;
  content_type : string;
  stream_final : bool;
  name : string;
  bytes_uploaded : Z;
  finished : bool;
  invalid : bool;
  recoveries : nat;
  sent : list transmission
}.

(** Modelled from the spec: the unit the backend mandates for chunk sizes
    (sections 3 and 6), 256 KiB, which is also the default chunk size of the
    stream. *)
Definition UPLOAD_CHUNK_SIZE : Z := 262144.

(** Modelled from the spec: the constructor
    [requests.ResumableUpload(upload_url=..., chunk_size=...)], missing from
    the sources. The chunk size is fixed at creation and must be a multiple
    of the unit the backend mandates (sections 3 and 6); the constructor
    raises [ValueError] for any other size. A new upload is neither finished
    nor invalid. *)
Definition new (upload_url : string) (chunk_size : Z) : outcome t :=
  if chunk_size mod UPLOAD_CHUNK_SIZE =? 0 then
    Return {| upload_url := upload_url; chunk_size := chunk_size;
              content_type := EmptyString; stream_final := false;
              name := EmptyString; bytes_uploaded := 0;
              finished := false; invalid := false; recoveries := 0%nat;
              sent := [] |}
  else Raise ValueError.

(** Modelled from the spec: [initiate] of section 4.3, missing from the
    sources. It registers the upload with its content type and metadata and
    keeps the [stream_final] argument: with [stream_final=False] the total
    size is not known until the stream runs short. *)
Definition initiate (self : t) (content_type : string)
           (stream_final : bool) (name : string) : t :=
  {| upload_url := upload_url self; chunk_size := chunk_size self;
     content_type := content_type; stream_final := stream_final;
     name := name; bytes_uploaded := bytes_uploaded self;
     finished := finished self; invalid := invalid self;
     recoveries := recoveries self; sent := sent self |}.

(** Modelled from the spec: [transmitNextChunk] of section 4.3, missing
    from the sources. Only an active session transmits: one that is
    finished (COMPLETED), or invalid and not yet recovered (RECOVERING),
    refuses the call with [ValueError] before it reads anything. Otherwise
    it reads one window of [chunk_size] from the stream and sends it as the
    next byte range. The request declares the total length, and so is the
    final chunk of sections 6 and 10, when the stream was declared final or
    the window came out shorter than a chunk; once the backend accepts it
    the object is committed and the upload finished. An invalid response
    makes the upload invalid and is raised without a retry. *)
Definition transmit_next_chunk {St : Type} `{Stream St}
           (self : t) (transport : AuthorizedSession) (stream : St)
  : outcome unit * t * St :=
  if finished self || invalid self then (Raise ValueError, self, stream)
  else
    let start := stream_tell stream in
    let '(data, stream) := stream_read (chunk_size self) stream in
    let answer := transport (List.length (sent self)) in
    let last := stream_final self || (len data <? chunk_size self) in
    let request :=
      {| start_byte := start; payload := data;
         final := last; reply := answer |} in
    let uploaded :=
      match answer with
      | Accepted => bytes_uploaded self + len data
      | _ => bytes_uploaded self
      end in
    let self :=
      {| upload_url := upload_url self; chunk_size := chunk_size self;
         content_type := content_type self;
         stream_final := stream_final self; name := name self;
         bytes_uploaded := uploaded;
         finished := match answer with Accepted => last | _ => false end;
         invalid := match answer with Rejected => true | _ => false end;
         recoveries := recoveries self;
         sent := sent self ++ [request] |} in
    match answer with
    | Accepted => (Return tt, self, stream)
    | Rejected => (Raise InvalidResponse, self, stream)
    | Failed => (Raise TransportError, self, stream)
    end.

(** The offset the backend durably holds: the bytes of the accepted
    requests. *)
Definition committed_offset (log : list transmission) : Z :=
  fold_right
    (fun r acc =>
       match reply r with Accepted => len (payload r) + acc | _ => acc end)
    0 log.

(** Modelled from the spec: [recover] of section 4.3, missing from the
    sources. It is for an invalid upload only ([ValueError] otherwise): it
    resynchronises [bytes_uploaded] to the offset the backend has committed
    and, for the next transmit to resume from there with no gap and no
    overlap (P5), moves the stream back to that offset with the stream's
    [seek]. On a stream whose class has no [seek] that step is an
    [AttributeError], and the upload stays invalid. *)
Definition recover {St : Type} `{Stream St}
           (self : t) (transport : AuthorizedSession) (stream : St)
  : outcome unit * t * St :=
  if invalid self then
    let offset := committed_offset (sent self) in
    let resynchronised (invalid : bool) :=
      {| upload_url := upload_url self; chunk_size := chunk_size self;
         content_type := content_type self;
         stream_final := stream_final self; name := name self;
         bytes_uploaded := offset;
         finished := finished self; invalid := invalid;
         recoveries := S (recoveries self); sent := sent self |} in
    match stream_seek with
    | Some seek => (Return tt, resynchronised false, seek offset stream)
    | None => (Raise AttributeError, resynchronised true, stream)
    end
  else (Raise ValueError, self, stream).

(** The object is committed once the backend has accepted a request that
    was marked final. *)
Definition is_commit (r : transmission) : bool :=
  final r && match reply r with Accepted => true | _ => false end.

Definition committed (self : t) : bool := existsb is_commit (sent self).

End ResumableUpload.

(** ** src/cloud_function/storage/base.py *)

Module Base.

Record t : Type := {
  _bucket : string;
  _blob : string;
  _content_type : string;
  _buffer : bytes;
  _buffer_size : Z;
  _chunk_size : Z;
  _read : Z;
  _transport : AuthorizedSession;
  _request : option ResumableUpload.t
}.

Definition default_chunk_size : Z := 256 * 1024.

Definition __init__ (transport : AuthorizedSession)
           (bucket_name blob_name content_type : string) (chunk_size : Z)
  : t :=
  {| _bucket := bucket_name; _blob := blob_name;
     _content_type := content_type;
     _buffer := []; _buffer_size := 0; _chunk_size := chunk_size;
     _read := 0; _transport := transport; _request := None |}.

Definition set_request (request : option ResumableUpload.t) (self : t)
  : t :=
  {| _bucket := _bucket self; _blob := _blob self;
     _content_type := _content_type self;
     _buffer := _buffer self; _buffer_size := _buffer_size self;
     _chunk_size := _chunk_size self; _read := _read self;
     _transport := _transport self; _request := request |}.

Definition read (chunk_size : Z) (self : t) : bytes * t :=
  let to_read := Z.min chunk_size (_buffer_size self) in
  let memview := _buffer self in
  (slice_to to_read memview,
   {| _bucket := _bucket self; _blob := _blob self;
      _content_type := _content_type self;
      _buffer := slice_from to_read memview;
      _buffer_size := _buffer_size self - to_read;
      _chunk_size := _chunk_size self;
      _read := _read self + to_read;
      _transport := _transport self; _request := _request self |}).

Definition tell (self : t) : Z := _read self.

(** The class defines [read] and [tell], and no [seek]. *)
#[export] Instance stream : Stream t :=
  {| stream_read := read; stream_tell := tell; stream_seek := None |}.

(** [start]: an exception of the constructor leaves [self._request] as it
    was. *)
Definition start (self : t) : outcome unit * t :=
  let url :=
    ("https://www.googleapis.com/upload/storage/v1/b/"
       ++ _bucket self ++ "/o?uploadType=resumable")%string in
  match ResumableUpload.new url (_chunk_size self) with
  | Raise e => (Raise e, self)
  | Return request =>
      (Return tt,
       set_request
         (Some (ResumableUpload.initiate request (_content_type self) false
                                         (_blob self)))
         self)
  end.

(** [self._request.transmit_next_chunk(self._transport)]; the upload object
    reads from [self], which was handed to it as [stream=self]. *)
Definition transmit (self : t) : outcome unit * t :=
  match _request self with
  | None => (Raise AttributeError, self)
  | Some request =>
      let '(result, request, self) :=
        ResumableUpload.transmit_next_chunk request (_transport self) self
      in (result, set_request (Some request) self)
  end.

(** [self._request.recover(self._transport)]; the upload object works on
    the stream it was initiated with, which is [self]. *)
Definition recover (self : t) : outcome unit * t :=
  match _request self with
  | None => (Raise AttributeError, self)
  | Some request =>
      let '(result, request, self) :=
        ResumableUpload.recover request (_transport self) self
      in (result, set_request (Some request) self)
  end.

Definition stop (self : t) : outcome unit * t := transmit self.

(** [__enter__] returns [self] once [start] has returned. *)
Definition __enter__ (self : t) : outcome unit * t := start self.

Definition __exit__ (exc_type : option exn) (self : t)
  : outcome unit * t :=
  match exc_type with
  | None => stop self
  | Some _ => (Return tt, self)
  end.

(** The [while] loop of [write]; [None] when [fuel] iterations were not
    enough to leave it. *)
Fixpoint write_loop (fuel : nat) (self : t) : option (outcome unit * t) :=
  if _buffer_size self >=? _chunk_size self then
    match fuel with
    | O => None
    | S fuel =>
        match transmit self with
        | (Return _, self) => write_loop fuel self
        | (Raise InvalidResponse, self) =>
            match recover self with
            | (Return _, self) => write_loop fuel self
            | (Raise e, self) => Some (Raise e, self)
            end
        | (Raise e, self) => Some (Raise e, self)
        end
    end
  else Some (Return tt, self).

Definition push (data : bytes) (self : t) : t :=
  {| _bucket := _bucket self; _blob := _blob self;
     _content_type := _content_type self;
     _buffer := _buffer self ++ data;
     _buffer_size := _buffer_size self + len data;
     _chunk_size := _chunk_size self; _read := _read self;
     _transport := _transport self; _request := _request self |}.

Definition write (fuel : nat) (data : bytes) (self : t)
  : option (outcome Z * t) :=
  let data_len := len data in
  match write_loop fuel (push data self) with
  | None => None
  | Some (Return _, self) => Some (Return data_len, self)
  | Some (Raise e, self) => Some (Raise e, self)
  end.

End Base.

(** ** src/functions/ews-mail-ingest/main.py *)

Module Main.

Record t : Type := {
  _bucket : string;
  _blob : string;
  _buffer : bytes;
  _buffer_size : Z;
  _chunk_size : Z;
  _read : Z;
  _transport : AuthorizedSession;
  _request : option ResumableUpload.t
}.

Definition default_chunk_size : Z := 256 * 1024.

Definition __init__ (transport : AuthorizedSession)
           (bucket_name blob_name : string) (chunk_size : Z) : t :=
  {| _bucket := bucket_name; _blob := blob_name;
     _buffer := []; _buffer_size := 0; _chunk_size := chunk_size;
     _read := 0; _transport := transport; _request := None |}.

Definition set_request (request : option ResumableUpload.t) (self : t)
  : t :=
  {| _bucket := _bucket self; _blob := _blob self;
     _buffer := _buffer self; _buffer_size := _buffer_size self;
     _chunk_size := _chunk_size self; _read := _read self;
     _transport := _transport self; _request := request |}.

Definition read (chunk_size : Z) (self : t) : bytes * t :=
  let to_read := Z.min chunk_size (_buffer_size self) in
  let memview := _buffer self in
  (slice_to to_read memview,
   {| _bucket := _bucket self; _blob := _blob self;
      _buffer := slice_from to_read memview;
      _buffer_size := _buffer_size self - to_read;
      _chunk_size := _chunk_size self;
      _read := _read self + to_read;
      _transport := _transport self; _request := _request self |}).

Definition tell (self : t) : Z := _read self.

(** The class defines [read] and [tell], and no [seek]. *)
#[export] Instance stream : Stream t :=
  {| stream_read := read; stream_tell := tell; stream_seek := None |}.

Definition start (self : t) : outcome unit * t :=
  let url :=
    ("https://www.googleapis.com/upload/storage/v1/b/"
       ++ _bucket self ++ "/o?uploadType=resumable")%string in
  match ResumableUpload.new url (_chunk_size self) with
  | Raise e => (Raise e, self)
  | Return request =>
      (Return tt,
       set_request
         (Some (ResumableUpload.initiate request "application/octet-stream"
                                         false (_blob self)))
         self)
  end.

Definition transmit (self : t) : outcome unit * t :=
  match _request self with
  | None => (Raise AttributeError, self)
  | Some request =>
      let '(result, request, self) :=
        ResumableUpload.transmit_next_chunk request (_transport self) self
      in (result, set_request (Some request) self)
  end.

Definition recover (self : t) : outcome unit * t :=
  match _request self with
  | None => (Raise AttributeError, self)
  | Some request =>
      let '(result, request, self) :=
        ResumableUpload.recover request (_transport self) self
      in (result, set_request (Some request) self)
  end.

Definition stop (self : t) : outcome unit * t := transmit self.

(** [__enter__] returns [self] once [start] has returned. *)
Definition __enter__ (self : t) : outcome unit * t := start self.

Definition __exit__ (exc_type : option exn) (self : t)
  : outcome unit * t :=
  match exc_type with
  | None => stop self
  | Some _ => (Return tt, self)
  end.

Fixpoint write_loop (fuel : nat) (self : t) : option (outcome unit * t) :=
  if _buffer_size self >=? _chunk_size self then
    match fuel with
    | O => None
    | S fuel =>
        match transmit self with
        | (Return _, self) => write_loop fuel self
        | (Raise InvalidResponse, self) =>
            match recover self with
            | (Return _, self) => write_loop fuel self
            | (Raise e, self) => Some (Raise e, self)
            end
        | (Raise e, self) => Some (Raise e, self)
        end
    end
  else Some (Return tt, self).

Definition push (data : bytes) (self : t) : t :=
  {| _bucket := _bucket self; _blob := _blob self;
     _buffer := _buffer self ++ data;
     _buffer_size := _buffer_size self + len data;
     _chunk_size := _chunk_size self; _read := _read self;
     _transport := _transport self; _request := _request self |}.

Definition write (fuel : nat) (data : bytes) (self : t)
  : option (outcome Z * t) :=
  let data_len := len data in
  match write_loop fuel (push data self) with
  | None => None
  | Some (Return _, self) => Some (Return data_len, self)
  | Some (Raise e, self) => Some (Raise e, self)
  end.

End Main.

(** ** Using the stream

    What follows is stated on the stream of base.py; [Equivalence] below
    relates it to the one of main.py. *)

Import Base.

(** All bytes of a list of requests, in the order they were sent. *)
Definition windows (log : list transmission) : bytes :=
  List.concat (map payload log).

Definition sent_of (self : t) : list transmission :=
  match _request self with
  | Some request => ResumableUpload.sent request
  | None => []
  end.

Definition recoveries_of (self : t) : nat :=
  match _request self with
  | Some request => ResumableUpload.recoveries request
  | None => 0%nat
  end.

Definition committed_of (self : t) : bool :=
  match _request self with
  | Some request => ResumableUpload.committed request
  | None => false
  end.



(** The requests [self'] has sent since [self]. *)
Definition sent_since (self self' : t) : list transmission :=
  skipn (List.length (sent_of self)) (sent_of self').

(** Successive [write] calls; an exception ends the sequence, as it leaves
    the caller's block. *)
Fixpoint write_all (fuel : nat) (datas : list bytes) (self : t)
  : option (outcome unit * t) :=
  match datas with
  | [] => Some (Return tt, self)
  | data :: datas =>
      match write fuel data self with
      | None => None
      | Some (Return _, self) => write_all fuel datas self
      | Some (Raise e, self) => Some (Raise e, self)
      end
  end.

(** [with GCSObjectStreamUpload(...) as f: f.write(d1); ...; f.write(dn)]:
    an exception of [__enter__] leaves the statement before the block;
    [__exit__] receives the exception of the block, if any, and does not
    swallow it. *)
Definition scoped (fuel : nat) (self : t) (datas : list bytes)
  : option (outcome unit * t) :=
  match __enter__ self with
  | (Raise e, self) => Some (Raise e, self)
  | (Return _, self) =>
      match write_all fuel datas self with
      | None => None
      | Some (Return _, self) => Some (__exit__ None self)
      | Some (Raise e, self) =>
          match __exit__ (Some e) self with
          | (Return _, self) => Some (Raise e, self)
          | (Raise e', self) => Some (Raise e', self)
          end
      end
  end.

(** The [with] statement up to the end of its block, before [__exit__]. *)
Definition block (fuel : nat) (self : t) (datas : list bytes)
  : option (outcome unit * t) :=
  match __enter__ self with
  | (Raise e, self) => Some (Raise e, self)
  | (Return _, self) => write_all fuel datas self
  end.

(** The buffer alone: the append at the head of [write], and [read]. *)
Inductive buffer_op : Type :=
| Push (data : bytes)
| Pop (n : Z).

Definition buffer_step (o : buffer_op) (self : t) : t :=
  match o with
  | Push data => push data self
  | Pop n => snd (read n self)
  end.

Definition buffer_run (ops : list buffer_op) (self : t) : t :=
  fold_left (fun self o => buffer_step o self) ops self.

Definition nonneg_pop (o : buffer_op) : Prop :=
  match o with
  | Push _ => True
  | Pop n => 0 <= n
  end.

(** Calls a client of the stream can make once it is started. *)
Inductive call : Type :=
| CallWrite (data : bytes)
| CallRead (n : Z)
| CallTell.

(** One call: the state it leaves and the windows [read] returned during it,
    to the caller or to the upload object. A raised exception is caught by
    the caller, who goes on. *)
Definition call_step (fuel : nat) (c : call) (self : t)
  : option (list bytes * t) :=
  match c with
  | CallWrite data =>
      match write fuel data self with
      | None => None
      | Some (_, self') => Some (map payload (sent_since self self'), self')
      end
  | CallRead n => let '(b, self') := read n self in Some ([b], self')
  | CallTell => Some ([], self)
  end.

Fixpoint call_run (fuel : nat) (cs : list call) (self : t)
  : option (list bytes * t) :=
  match cs with
  | [] => Some ([], self)
  | c :: cs =>
      match call_step fuel c self with
      | None => None
      | Some (out, self) =>
          match call_run fuel cs self with
          | None => None
          | Some (outs, self) => Some (out ++ outs, self)
          end
      end
  end.

Definition written (cs : list call) : bytes :=
  List.concat (map (fun c => match c with CallWrite d => d | _ => [] end) cs).

Definition nonneg_read (c : call) : Prop :=
  match c with
  | CallRead n => 0 <= n
  | _ => True
  end.

(** ** Invariants and footprints *)

(** The bookkeeping invariant of the buffer: [_buffer_size] is the length of
    [_buffer]. *)
Definition consistent (self : t) : Prop :=
  _buffer_size self = len (_buffer self).

(** [start] has run: there is an upload object, created with the stream's
    chunk size. *)
Definition started (self : t) : Prop :=
  exists request,
    _request self = Some request
    /\ ResumableUpload.chunk_size request = _chunk_size self.

(** What [initiate] was told about the stream. *)
Definition final_flag_of (self : t) : bool :=
  match _request self with
  | Some request => ResumableUpload.stream_final request
  | None => false
  end.

Definition finished_of (self : t) : bool :=
  match _request self with
  | Some request => ResumableUpload.finished request
  | None => false
  end.

Definition invalid_of (self : t) : bool :=
  match _request self with
  | Some request => ResumableUpload.invalid request
  | None => false
  end.

(** A stream as [__init__] and [start] make it and as the calls of a client
    keep it: a positive chunk size, a buffer whose size is counted right,
    and either no upload object yet or the one [start] made. *)
Definition sane (self : t) : Prop :=
  0 < _chunk_size self
  /\ consistent self
  /\ (_request self = None \/ (started self /\ final_flag_of self = false)).

(** A sane stream whose upload object still transmits: it is there, neither
    finished nor invalid. *)
Definition good (self : t) : Prop :=
  0 < _chunk_size self
  /\ consistent self
  /\ started self
  /\ final_flag_of self = false
  /\ finished_of self = false
  /\ invalid_of self = false.

(** The upload object is there and refuses to transmit: it is finished, or
    invalid. *)
Definition refusing (self : t) : Prop :=
  exists request,
    _request self = Some request
    /\ (ResumableUpload.finished request
        || ResumableUpload.invalid request) = true.

(** The exception [transmit_next_chunk] raises for an answer. *)
Definition raised_by (r : response) : outcome unit :=
  match r with
  | Accepted => Return tt
  | Rejected => Raise InvalidResponse
  | Failed => Raise TransportError
  end.

Definition accepted (r : transmission) : Prop := reply r = Accepted.

(** The requests of [log] start one where the other ended, the first one at
    byte [base]. *)
Fixpoint offsets_from (base : Z) (log : list transmission) : Prop :=
  match log with
  | [] => True
  | r :: log =>
      start_byte r = base /\ offsets_from (base + len (payload r)) log
  end.

(** [self'] comes from [self] by sending the requests [new]: their windows
    left the head of the buffer, in order, and the cursor moved by as much;
    each request starts where the cursor stood, is marked final when its
    window is shorter than a chunk, and got the next answer of the
    transport. *)
Record extends (self self' : t) (new : list transmission) : Prop := {
  ext_sent : sent_of self' = sent_of self ++ new;
  ext_buffer : _buffer self = windows new ++ _buffer self';
  ext_read : _read self' = _read self + len (windows new);
  ext_size : _buffer_size self' = _buffer_size self - len (windows new);
  ext_chunk : _chunk_size self' = _chunk_size self;
  ext_transport : _transport self' = _transport self;
  ext_marks :
    Forall (fun r => final r = (len (payload r) <? _chunk_size self)) new;
  ext_offsets : offsets_from (_read self) new;
  ext_replies :
    map reply new
    = map (_transport self)
          (seq (List.length (sent_of self)) (List.length new))
}.

(** Every answer of the transport is an acceptance. *)
Definition always_accepts (transport : AuthorizedSession) : Prop :=
  forall k, transport k = Accepted.

(** ** Sample transports and data *)

Definition accepting : AuthorizedSession := fun _ => Accepted.

Definition rejecting : AuthorizedSession := fun _ => Rejected.

(** b"abcde" *)
Definition abcde : bytes := [x61; x62; x63; x64; x65].

(** b"fgh" *)
Definition fgh : bytes := [x66; x67; x68].

Definition zeros (n : Z) : bytes := repeat x00 (Z.to_nat n).

(** A stream with the given chunk size, as [__enter__] leaves it. *)
Definition acquired (transport : AuthorizedSession) (chunk : Z) : t :=
  snd (__enter__ (__init__ transport "bucket" "mail/attachment.pdf"
                           "application/pdf" chunk)).


(** ** The two streams side by side *)

(** Two upload objects that differ at most in the content type they were
    initiated with. *)
Definition same_upload (r1 r2 : ResumableUpload.t) : Prop :=
  ResumableUpload.upload_url r1 = ResumableUpload.upload_url r2
  /\ ResumableUpload.chunk_size r1 = ResumableUpload.chunk_size r2
  /\ ResumableUpload.stream_final r1 = ResumableUpload.stream_final r2
  /\ ResumableUpload.name r1 = ResumableUpload.name r2
  /\ ResumableUpload.bytes_uploaded r1 = ResumableUpload.bytes_uploaded r2
  /\ ResumableUpload.finished r1 = ResumableUpload.finished r2
  /\ ResumableUpload.invalid r1 = ResumableUpload.invalid r2
  /\ ResumableUpload.recoveries r1 = ResumableUpload.recoveries r2
  /\ ResumableUpload.sent r1 = ResumableUpload.sent r2.

(** A stream of base.py and a stream of main.py in the same state. *)
Definition same_stream (b : Base.t) (m : Main.t) : Prop :=
  Base._bucket b = Main._bucket m
  /\ Base._blob b = Main._blob m
  /\ Base._buffer b = Main._buffer m
  /\ Base._buffer_size b = Main._buffer_size m
  /\ Base._chunk_size b = Main._chunk_size m
  /\ Base._read b = Main._read m
  /\ Base._transport b = Main._transport m
  /\ match Base._request b, Main._request m with
     | Some r1, Some r2 => same_upload r1 r2
     | None, None => True
     | _, _ => False
     end.

(** The same result and the same state after a call. *)
Definition same_result (A : Type) (rb : A * Base.t) (rm : A * Main.t)
  : Prop :=
  fst rb = fst rm /\ same_stream (snd rb) (snd rm).

Definition same_run (A : Type) (rb : option (A * Base.t))
           (rm : option (A * Main.t)) : Prop :=
  match rb, rm with
  | Some rb, Some rm => same_result rb rm
  | None, None => True
  | _, _ => False
  end.

(** ** The callers of the stream *)

(** [bool(buffer)] of a bytes object: it is true unless the object is empty. *)
Definition truthy (b : bytes) : bool :=
  match b with
  | [] => false
  | _ :: _ => true
  end.

(** What a readable hands out before its first empty read, when [reads] are
    the results of its successive [read] calls. *)
Fixpoint before_eof (reads : list bytes) : list bytes :=
  match reads with
  | [] => []
  | b :: reads => if truthy b then b :: before_eof reads else []
  end.

(** The requests a stream of main.py has sent. *)
Definition main_sent_of (self : Main.t) : list transmission :=
  match Main._request self with
  | Some request => ResumableUpload.sent request
  | None => []
  end.

Module StorageService.

(** The loop of [_store_file]. [reads] are the results of the successive
    [fp.read(1024)] calls, the first one being the read before the loop; a
    readable whose results are used up is at its end and returns b"". *)
Fixpoint read_write_loop (fuel : nat) (reads : list bytes) (f : Base.t)
  : option (outcome unit * Base.t) :=
  match reads with
  | [] => Some (Return tt, f)
  | buffer :: reads =>
      if truthy buffer then
        match Base.write fuel buffer f with
        | None => None
        | Some (Return _, f) => read_write_loop fuel reads f
        | Some (Raise e, f) => Some (Raise e, f)
        end
      else Some (Return tt, f)
  end.

(** [_store_file] from its [with] statement on: [reads] are the reads of the
    file that [FileCleaner(...).clean()] returned, a class that is not in the
    sources. The stream gets the default chunk size; the result carries the
    stream the statement leaves behind. *)
Definition _store_file (storage_client : AuthorizedSession)
           (bucket : string) (fuel : nat) (reads : list bytes)
           (filename content_type : string)
  : option (outcome unit * Base.t) :=
  match
    Base.__enter__
      (Base.__init__ storage_client bucket filename content_type
                     Base.default_chunk_size)
  with
  | (Raise e, f) => Some (Raise e, f)
  | (Return _, f) =>
      match read_write_loop fuel reads f with
      | None => None
      | Some (Return _, f) => Some (Base.__exit__ None f)
      | Some (Raise e, f) =>
          match Base.__exit__ (Some e) f with
          | (Return _, f) => Some (Raise e, f)
          | (Raise e', f) => Some (Raise e', f)
          end
      end
  end.

End StorageService.

(** [s.count(c)] for a string [c] of one character. *)
Fixpoint str_count (c : ascii) (s : string) : Z :=
  match s with
  | EmptyString => 0
  | String x rest => (if Ascii.eqb x c then 1 else 0) + str_count c rest
  end.

(** [s.replace(old, new, count)] for strings [old] and [new] of one
    character: the first [count] occurrences are replaced, and all of them
    when [count] is negative, as with the default [-1]. *)
Fixpoint str_replace (old new : ascii) (count : Z) (s : string) : string :=
  match s with
  | EmptyString => EmptyString
  | String x rest =>
      if count =? 0 then s
      else if Ascii.eqb x old
           then String new (str_replace old new (count - 1) rest)
           else String x (str_replace old new count rest)
  end.

(** Every character of [targets] turned into an underscore. *)
Definition underscore (targets : list ascii) (c : ascii) : ascii :=
  if existsb (Ascii.eqb c) targets then "_"%char else c.

Fixpoint string_map (f : ascii -> ascii) (s : string) : string :=
  match s with
  | EmptyString => EmptyString
  | String x rest => String (f x) (string_map f rest)
  end.

(** [str(n)], and ['%d' % n], of an integer that is not negative. *)
Definition str_of_nat (n : nat) : string :=
  DecimalString.NilZero.string_of_uint (Nat.to_uint n).

Fixpoint zeros_string (k : nat) : string :=
  match k with
  | O => EmptyString
  | S k => String "0" (zeros_string k)
  end.

(** ['%0<width>d' % n] for an integer that is not negative: its decimal
    digits, with zeros on the left up to [width] characters. *)
Definition zero_pad (width n : nat) : string :=
  (zeros_string (width - String.length (str_of_nat n)) ++ str_of_nat n)
    %string.

(** The fields of a [datetime] that [set_message_path] reads. *)
Record datetime : Type := {
  year : nat;
  month : nat;
  day : nat;
  hour : nat;
  minute : nat;
  second : nat
}.

(** The ranges Python's [datetime] keeps its fields in. *)
Definition valid_datetime (d : datetime) : Prop :=
  1 <= Z.of_nat (year d) <= 9999
  /\ 1 <= Z.of_nat (month d) <= 12
  /\ 1 <= Z.of_nat (day d) <= 31
  /\ Z.of_nat (hour d) <= 23
  /\ Z.of_nat (minute d) <= 59
  /\ Z.of_nat (second d) <= 59.

Module EWSMailMessage.

(** [message_id] of [set_message_path]:
    ['%04d%02d%02dT%02d%02d%02dZ' % (year, month, day, hour, minute,
    second)] *)
Definition message_id (now : datetime) : string :=
  (zero_pad 4 (year now) ++ zero_pad 2 (month now) ++ zero_pad 2 (day now)
   ++ "T" ++ zero_pad 2 (hour now) ++ zero_pad 2 (minute now)
   ++ zero_pad 2 (second now) ++ "Z")%string.

(** [path] of [set_message_path] before the check:
    ['%s/%04d/%02d/%02d/%s' % (config.EXCHANGE_USERNAME, year, month, day,
    message_id)], with the user name of the missing [config] module as
    [username]. *)
Definition dated_path (username : string) (now : datetime) : string :=
  (username ++ "/" ++ zero_pad 4 (year now) ++ "/" ++ zero_pad 2 (month now)
   ++ "/" ++ zero_pad 2 (day now) ++ "/" ++ message_id now)%string.

(** [set_message_path], with [now = self.message.datetime_sent], the state
    of the bucket as [check_gcs_blob_exists] and the value of
    [secrets.randbits(64)] as [randbits]. *)
Definition set_message_path (check_gcs_blob_exists : string -> bool)
           (randbits : nat) (username : string) (now : datetime) : string :=
  let path := dated_path username now in
  if check_gcs_blob_exists (path ++ "/original_email.html")%string
  then (path ++ "_" ++ str_of_nat randbits)%string
  else path.

(** [clean_attachment_name] of [process_message_attachments]:
    [name.replace(' ', '_').replace('.', '_', name.count('.') - 1)
         .replace('-', '_')] *)
Definition clean_attachment_name (name : string) : string :=
  str_replace "-" "_" (-1)
    (str_replace "." "_" (str_count "." name - 1)
       (str_replace " " "_" (-1) name)).

(** [file_path = '%s/%s' % (self.path, clean_attachment_name)] *)
Definition file_path (path name : string) : string :=
  (path ++ "/" ++ clean_attachment_name name)%string.

Fixpoint read_write_loop (fuel : nat) (reads : list bytes) (f : Main.t)
  : option (outcome unit * Main.t) :=
  match reads with
  | [] => Some (Return tt, f)
  | buffer :: reads =>
      if truthy buffer then
        match Main.write fuel buffer f with
        | None => None
        | Some (Return _, f) => read_write_loop fuel reads f
        | Some (Raise e, f) => Some (Raise e, f)
        end
      else Some (Return tt, f)
  end.

(** [write_stream_to_blob(bucket_name, path, content)], with [reads] the
    results of the successive [fp.read(1024)] calls on [content]. *)
Definition write_stream_to_blob (storage_client : AuthorizedSession)
           (fuel : nat) (bucket_name path : string) (reads : list bytes)
  : option (outcome unit * Main.t) :=
  match
    Main.__enter__
      (Main.__init__ storage_client bucket_name path
                     Main.default_chunk_size)
  with
  | (Raise e, f) => Some (Raise e, f)
  | (Return _, f) =>
      match read_write_loop fuel reads f with
      | None => None
      | Some (Return _, f) => Some (Main.__exit__ None f)
      | Some (Raise e, f) =>
          match Main.__exit__ (Some e) f with
          | (Return _, f) => Some (Raise e, f)
          | (Raise e', f) => Some (Raise e', f)
          end
      end
  end.

End EWSMailMessage.

(** * Properties *)

(** ** Slices and the buffer *)

Lemma len_nonneg (A : Type) (l : list A) : 0 <= len l.
Proof. unfold len. lia. Qed.

Lemma len_app (A : Type) (l l' : list A) : len (l ++ l') = len l + len l'.
Proof. unfold len. rewrite length_app. lia. Qed.

Lemma len_nil (A : Type) : len (@nil A) = 0.
Proof. reflexivity. Qed.

Lemma py_index_nonneg (i n : Z) :
  0 <= i <= n -> py_index i n = i.
Proof.
  intros Hi. unfold py_index.
  destruct (i <? 0) eqn:E; [apply Z.ltb_lt in E; lia | lia].
Qed.

Lemma slice_to_nonneg (i : Z) (b : bytes) :
  0 <= i <= len b -> slice_to i b = firstn (Z.to_nat i) b.
Proof. intros Hi. unfold slice_to. now rewrite py_index_nonneg. Qed.

Lemma slice_from_nonneg (i : Z) (b : bytes) :
  0 <= i <= len b -> slice_from i b = skipn (Z.to_nat i) b.
Proof. intros Hi. unfold slice_from. now rewrite py_index_nonneg. Qed.

Lemma slices_partition (i : Z) (b : bytes) :
  slice_to i b ++ slice_from i b = b.
Proof. unfold slice_to, slice_from. apply firstn_skipn. Qed.

Lemma len_firstn (A : Type) (k : Z) (l : list A) :
  0 <= k <= len l -> len (firstn (Z.to_nat k) l) = k.
Proof. intros Hk. unfold len in *. rewrite length_firstn. lia. Qed.

Lemma len_skipn (A : Type) (k : Z) (l : list A) :
  0 <= k <= len l -> len (skipn (Z.to_nat k) l) = len l - k.
Proof. intros Hk. unfold len in *. rewrite length_skipn. lia. Qed.

Lemma consistent_init transport bucket blob ctype chunk :
  consistent (__init__ transport bucket blob ctype chunk).
Proof. reflexivity. Qed.

Lemma consistent_push (data : bytes) (self : t) :
  consistent self -> consistent (push data self).
Proof.
  unfold consistent, push. simpl. intros ->. now rewrite len_app.
Qed.

Lemma consistent_set_request request (self : t) :
  consistent self -> consistent (set_request request self).
Proof. exact (fun H => H). Qed.

(** What [read] does on a consistent buffer when asked for [n >= 0] bytes. *)
Lemma read_consistent (n : Z) (self : t) :
  consistent self -> 0 <= n ->
  let k := Z.min n (_buffer_size self) in
  fst (read n self) = firstn (Z.to_nat k) (_buffer self)
  /\ _buffer (snd (read n self)) = skipn (Z.to_nat k) (_buffer self)
  /\ len (fst (read n self)) = k
  /\ consistent (snd (read n self)).
Proof.
  intros Hc Hn k. unfold consistent in *.
  assert (Hk : 0 <= k <= len (_buffer self)).
  { subst k. pose proof (len_nonneg (_buffer self)). lia. }
  unfold read; simpl. fold k.
  rewrite slice_to_nonneg, slice_from_nonneg by exact Hk.
  repeat split.
  - now apply len_firstn.
  - rewrite len_skipn by exact Hk. lia.
Qed.

Lemma read_fields (n : Z) (self : t) :
  let self' := snd (read n self) in
  _chunk_size self' = _chunk_size self
  /\ _transport self' = _transport self
  /\ _request self' = _request self
  /\ _read self' = _read self + Z.min n (_buffer_size self)
  /\ _buffer_size self' = _buffer_size self - Z.min n (_buffer_size self)
  /\ _buffer self = fst (read n self) ++ _buffer self'.
Proof.
  simpl. repeat split. symmetry. apply slices_partition.
Qed.

(** ** One request *)

Lemma windows_app (l l' : list transmission) :
  windows (l ++ l') = windows l ++ windows l'.
Proof. unfold windows. now rewrite map_app, concat_app. Qed.

Lemma windows_one (r : transmission) : windows [r] = payload r.
Proof. unfold windows. simpl. apply app_nil_r. Qed.

Lemma len_windows_chunks (chunk : Z) (l : list transmission) :
  Forall (fun r => len (payload r) = chunk) l ->
  len (windows l) = chunk * len l.
Proof.
  induction 1 as [|r l Hr _ IH].
  - unfold windows, len; simpl. lia.
  - change (windows (r :: l)) with (payload r ++ windows l).
    rewrite len_app, IH, Hr. unfold len; simpl List.length.
    rewrite Nat2Z.inj_succ. lia.
Qed.

Lemma offsets_from_app (l l' : list transmission) :
  forall base : Z,
    offsets_from base (l ++ l')
    <-> offsets_from base l /\ offsets_from (base + len (windows l)) l'.
Proof.
  induction l as [|r l IH]; intros base; simpl.
  - change (windows []) with (@nil byte). rewrite len_nil, Z.add_0_r.
    tauto.
  - change (windows (r :: l)) with (payload r ++ windows l).
    rewrite len_app, IH, Z.add_assoc. tauto.
Qed.

Lemma extends_refl (self : t) : extends self self [].
Proof.
  constructor; simpl; auto.
  - now rewrite app_nil_r.
  - change (windows []) with (@nil byte). rewrite len_nil. lia.
  - change (windows []) with (@nil byte). rewrite len_nil. lia.
Qed.

Lemma extends_trans (s1 s2 s3 : t) (l l' : list transmission) :
  extends s1 s2 l -> extends s2 s3 l' -> extends s1 s3 (l ++ l').
Proof.
  intros [A1 A2 A3 A4 A5 A6 A7 A8 A9] [B1 B2 B3 B4 B5 B6 B7 B8 B9].
  constructor.
  - now rewrite B1, A1, app_assoc.
  - now rewrite A2, B2, windows_app, app_assoc.
  - rewrite B3, A3, windows_app, len_app. lia.
  - rewrite B4, A4, windows_app, len_app. lia.
  - congruence.
  - congruence.
  - apply Forall_app. split; [exact A7|].
    rewrite A5 in B7. exact B7.
  - apply offsets_from_app. split; [exact A8|]. now rewrite <- A3.
  - rewrite map_app, A9, B9, A1, A6, !length_app, seq_app, map_app.
    reflexivity.
Qed.

(** A request that carries a full chunk is not marked final. *)
Lemma full_not_final (self self' : t) (new : list transmission) :
  extends self self' new ->
  Forall (fun r => len (payload r) = _chunk_size self) new ->
  Forall (fun r => final r = false) new.
Proof.
  intros Hext Hfull. pose proof (ext_marks Hext) as Hmarks.
  induction new as [|r new IH]; constructor.
  - inversion Hmarks as [|? ? Hm _]; inversion Hfull as [|? ? Hf _]; subst.
    rewrite Hm, Hf. apply Z.ltb_irrefl.
  - inversion Hmarks; inversion Hfull; subst.
    clear IH. revert H2 H6. clear. intros Hmarks Hfull.
    induction new as [|q new IH]; constructor.
    + inversion Hmarks as [|? ? Hm _]; inversion Hfull as [|? ? Hf _]; subst.
      rewrite Hm, Hf. apply Z.ltb_irrefl.
    + inversion Hmarks; inversion Hfull; subst. now apply IH.
Qed.


Lemma set_request_same (self : t) (request : ResumableUpload.t) :
  _request self = Some request -> set_request (Some request) self = self.
Proof. destruct self; simpl; intros ->; reflexivity. Qed.

Lemma good_sane (self : t) : good self -> sane self.
Proof.
  intros (Hchunk & Hcons & Hstarted & Hflag & _).
  split; [exact Hchunk|]. split; [exact Hcons|]. right. auto.
Qed.

Lemma sane_good (self : t) :
  sane self -> started self ->
  finished_of self = false -> invalid_of self = false -> good self.
Proof.
  intros (Hchunk & Hcons & [Hnone|(_ & Hflag)]) Hstarted Hfin Hinv.
  - destruct Hstarted as (request & Hreq & _). congruence.
  - repeat split; auto.
Qed.

(** The three kinds of sane stream. *)
Lemma sane_cases (self : t) :
  sane self -> _request self = None \/ refusing self \/ good self.
Proof.
  intros Hsane. pose proof Hsane as (_ & _ & [Hnone|(Hstarted & Hflag)]).
  - now left.
  - right.
    destruct (finished_of self || invalid_of self) eqn:Hstate.
    + left. destruct Hstarted as (request & Hreq & _).
      exists request. split; [exact Hreq|].
      unfold finished_of, invalid_of in Hstate. now rewrite Hreq in Hstate.
    + right. apply orb_false_elim in Hstate as (Hfin & Hinv).
      now apply sane_good.
Qed.

Lemma transmit_none (self : t) :
  _request self = None -> transmit self = (Raise AttributeError, self).
Proof. intros Hnone. unfold transmit. now rewrite Hnone. Qed.

(** An upload object that is finished or invalid sends nothing. *)
Lemma transmit_refused (self : t) :
  refusing self -> transmit self = (Raise ValueError, self).
Proof.
  intros (request & Hreq & Hstate). unfold transmit. rewrite Hreq.
  unfold ResumableUpload.transmit_next_chunk. rewrite Hstate.
  now rewrite set_request_same.
Qed.

(** The effect of [self._request.transmit_next_chunk(self._transport)] on a
    stream whose upload object transmits: one request, carrying the first
    [min chunk size] bytes of the buffer. *)
Lemma transmit_extends (self : t) :
  good self ->
  exists r,
    extends self (snd (transmit self)) [r]
    /\ fst (transmit self) = raised_by (reply r)
    /\ len (payload r) = Z.min (_chunk_size self) (_buffer_size self)
    /\ recoveries_of (snd (transmit self)) = recoveries_of self
    /\ sane (snd (transmit self))
    /\ started (snd (transmit self))
    /\ finished_of (snd (transmit self)) = ResumableUpload.is_commit r
    /\ invalid_of (snd (transmit self))
       = match reply r with Rejected => true | _ => false end
    /\ committed_of (snd (transmit self))
       = committed_of self || ResumableUpload.is_commit r.
Proof.
  intros (Hchunk & Hcons & (request & Hreq & Hsize) & Hflag & Hfin & Hinv).
  assert (Hn : 0 <= ResumableUpload.chunk_size request) by lia.
  destruct (@read_consistent (ResumableUpload.chunk_size request) self
                             Hcons Hn)
    as (Hfst & Hbuf & Hlen & Hcons').
  destruct (read_fields (ResumableUpload.chunk_size request) self)
    as (F1 & F2 & F3 & F4 & F5 & F6).
  cbv zeta in *.
  unfold final_flag_of, finished_of, invalid_of in Hflag, Hfin, Hinv.
  rewrite Hreq in Hflag, Hfin, Hinv.
  assert (Hsent : sent_of self = ResumableUpload.sent request)
    by (unfold sent_of; now rewrite Hreq).
  assert (Hrec : recoveries_of self = ResumableUpload.recoveries request)
    by (unfold recoveries_of; now rewrite Hreq).
  assert (Hcom : committed_of self = ResumableUpload.committed request)
    by (unfold committed_of; now rewrite Hreq).
  unfold transmit. rewrite Hreq.
  unfold ResumableUpload.transmit_next_chunk. rewrite Hfin, Hinv, Hflag.
  simpl orb.
  change (stream_read (ResumableUpload.chunk_size request) self)
    with (read (ResumableUpload.chunk_size request) self).
  destruct (read (ResumableUpload.chunk_size request) self)
    as [data self'] eqn:Hread.
  simpl fst in *; simpl snd in *.
  exists {| start_byte := stream_tell self; payload := data;
            final := len data <? ResumableUpload.chunk_size request;
            reply := _transport self
                       (List.length (ResumableUpload.sent request)) |}.
  unfold ResumableUpload.is_commit. simpl final. simpl reply.
  destruct (_transport self (List.length (ResumableUpload.sent request)))
    eqn:Hanswer; simpl fst; simpl snd.
  all: split;
    [constructor; simpl; rewrite ?windows_one, ?Hsent; simpl;
     try congruence; try lia; auto;
     repeat constructor; simpl; congruence|].
  all: split; [reflexivity|].
  all: split; [simpl; congruence|].
  all: split; [now rewrite Hrec|].
  all: split;
    [split; [simpl; congruence|]; split; [exact Hcons'|];
     right; split; [eexists; split; [reflexivity|simpl; congruence]|];
     unfold final_flag_of; simpl; first [reflexivity|exact Hflag]|].
  all: split; [eexists; split; [reflexivity|simpl; congruence]|].
  all: unfold finished_of, invalid_of, committed_of; simpl _request;
    unfold ResumableUpload.committed; simpl ResumableUpload.sent;
    rewrite ?Hcom; unfold ResumableUpload.committed;
    rewrite ?existsb_app; simpl;
    unfold ResumableUpload.is_commit; simpl;
    rewrite ?andb_true_r, ?andb_false_r, ?orb_false_r, ?Hreq;
    repeat split; auto.
Qed.

Lemma recover_none (self : t) :
  _request self = None -> recover self = (Raise AttributeError, self).
Proof. intros Hnone. unfold recover. now rewrite Hnone. Qed.

(** [recover] never returns on these streams: they have no [seek]. *)
Lemma recover_raises (self : t) :
  fst (recover self) = Raise AttributeError
  \/ fst (recover self) = Raise ValueError.
Proof.
  unfold recover. destruct (_request self) as [request|]; [|now left].
  unfold ResumableUpload.recover. simpl stream_seek.
  destruct (ResumableUpload.invalid request); simpl; auto.
Qed.

(** What [recover] does after an invalid response: it counts one recovery
    and fails at the [seek], leaving the upload invalid. *)
Lemma recover_invalid (self : t) :
  invalid_of self = true ->
  fst (recover self) = Raise AttributeError
  /\ extends self (snd (recover self)) []
  /\ recoveries_of (snd (recover self)) = S (recoveries_of self)
  /\ invalid_of (snd (recover self)) = true
  /\ finished_of (snd (recover self)) = finished_of self
  /\ committed_of (snd (recover self)) = committed_of self
  /\ (sane self -> sane (snd (recover self))).
Proof.
  unfold invalid_of, recover. destruct (_request self) as [request|] eqn:Hreq;
    [|discriminate].
  intros Hinv. unfold ResumableUpload.recover. rewrite Hinv.
  simpl stream_seek. simpl fst; simpl snd.
  split; [reflexivity|]. split; [|split; [|split; [|split; [|split]]]].
  - pose proof (extends_refl self) as [E1 E2 E3 E4 E5 E6 E7 E8 E9].
    constructor; auto; unfold sent_of in *; simpl; rewrite ?Hreq in *;
      simpl; auto.
  - unfold recoveries_of. simpl. now rewrite Hreq.
  - reflexivity.
  - unfold finished_of. simpl. now rewrite Hreq.
  - unfold committed_of. simpl. now rewrite Hreq.
  - intros (Hchunk & Hcons & Hreqs).
    split; [exact Hchunk|]. split; [exact Hcons|]. right.
    destruct Hreqs as [Hnone|((request' & Hreq' & Hsize) & Hflag)];
      [congruence|].
    rewrite Hreq in Hreq'. injection Hreq' as <-.
    split; [eexists; split; [reflexivity|exact Hsize]|].
    unfold final_flag_of in *. simpl. now rewrite Hreq in Hflag.
Qed.

(** ** The loop of [write] *)

Lemma write_loop_exit (fuel : nat) (self : t) :
  _buffer_size self < _chunk_size self ->
  write_loop fuel self = Some (Return tt, self).
Proof.
  intros Hlt.
  assert (Hcond : (_buffer_size self >=? _chunk_size self) = false).
  { rewrite Z.geb_leb. now apply Z.leb_gt. }
  destruct fuel; simpl; now rewrite Hcond.
Qed.

Lemma write_loop_enter (fuel : nat) (self : t) :
  _chunk_size self <= _buffer_size self ->
  write_loop (S fuel) self
  = match transmit self with
    | (Return _, self) => write_loop fuel self
    | (Raise InvalidResponse, self) =>
        match recover self with
        | (Return _, self) => write_loop fuel self
        | (Raise e, self) => Some (Raise e, self)
        end
    | (Raise e, self) => Some (Raise e, self)
    end.
Proof.
  intros Hle.
  assert (Hcond : (_buffer_size self >=? _chunk_size self) = true).
  { rewrite Z.geb_leb. now apply Z.leb_le. }
  simpl. now rewrite Hcond.
Qed.

Lemma write_loop_starved (self : t) :
  _chunk_size self <= _buffer_size self -> write_loop 0 self = None.
Proof.
  intros Hle.
  assert (Hcond : (_buffer_size self >=? _chunk_size self) = true).
  { rewrite Z.geb_leb. now apply Z.leb_le. }
  simpl. now rewrite Hcond.
Qed.

(** The loop returns only with less than a chunk in the buffer, whatever the
    stream. *)
Lemma write_loop_leaves_less (fuel : nat) :
  forall self self' : t,
    write_loop fuel self = Some (Return tt, self') ->
    _buffer_size self' < _chunk_size self'.
Proof.
  induction fuel as [|fuel IH]; intros self self' Hloop; simpl in Hloop;
    destruct (_buffer_size self >=? _chunk_size self) eqn:Hcond;
    try discriminate;
    try (injection Hloop as <-; rewrite Z.geb_leb in Hcond;
         now apply Z.leb_gt in Hcond).
  destruct (transmit self) as [[[]|[]] s1]; try discriminate.
  - now apply (IH s1).
  - destruct (recover s1) as [[[]|e] s2]; try discriminate.
    now apply (IH s2).
Qed.

(** What the loop does on a stream whose upload object transmits. It sends
    whole chunks from the head of the buffer, none of them marked final,
    and ends in one of three ways: with less than a chunk left, every
    request accepted; at the first rejected request, with the
    [AttributeError] of the one [recover] it tried; or at the first
    request that failed, with that error. *)
Lemma write_loop_sound (fuel : nat) :
  forall (self self' : t) (o : outcome unit),
    good self ->
    write_loop fuel self = Some (o, self') ->
    exists new,
      extends self self' new
      /\ sane self'
      /\ Forall (fun r => len (payload r) = _chunk_size self) new
      /\ finished_of self' = false
      /\ committed_of self' = committed_of self
      /\ ((o = Return tt /\ good self'
           /\ _buffer_size self' < _chunk_size self
           /\ Forall accepted new
           /\ recoveries_of self' = recoveries_of self)
          \/ exists old r,
               new = old ++ [r] /\ Forall accepted old
               /\ ((o = Raise AttributeError /\ reply r = Rejected
                    /\ invalid_of self' = true
                    /\ recoveries_of self' = S (recoveries_of self))
                   \/ (o = Raise TransportError /\ reply r = Failed
                       /\ good self'
                       /\ recoveries_of self' = recoveries_of self))).
Proof.
  induction fuel as [|fuel IH]; intros self self' o Hgood Hloop;
    simpl in Hloop;
    destruct (_buffer_size self >=? _chunk_size self) eqn:Hcond;
    try discriminate;
    try (injection Hloop as <- <-; exists [];
         split; [apply extends_refl|];
         split; [now apply good_sane|]; split; [constructor|];
         split; [apply Hgood|]; split; [reflexivity|];
         left; split; [reflexivity|]; split; [exact Hgood|];
         split; [rewrite Z.geb_leb in Hcond; now apply Z.leb_gt in Hcond|];
         split; [constructor|reflexivity]).
  destruct (transmit_extends Hgood)
    as (r & Hext & Hout & Hlen & Hrec & Hsane1 & Hstarted1 & Hfin1 & Hinv1
        & Hcom1).
  rewrite Z.geb_leb in Hcond. apply Z.leb_le in Hcond.
  rewrite Z.min_l in Hlen by exact Hcond.
  assert (Hfull : Forall (fun q => len (payload q) = _chunk_size self) [r])
    by (constructor; [exact Hlen|constructor]).
  pose proof (full_not_final Hext Hfull) as Hnf.
  assert (Hfinal : final r = false) by now inversion Hnf.
  unfold ResumableUpload.is_commit in Hfin1, Hcom1.
  rewrite Hfinal in Hfin1, Hcom1. simpl in Hfin1, Hcom1.
  rewrite orb_false_r in Hcom1.
  destruct (transmit self) as [o1 s1]. simpl fst in *; simpl snd in *.
  pose proof (ext_chunk Hext) as Hchunk1.
  destruct (reply r) eqn:Hreply; simpl in Hout; subst o1.
  - assert (Hgood1 : good s1) by now apply sane_good.
    destruct (IH _ _ _ Hgood1 Hloop)
      as (new & Hext' & Hsane' & Hall & Hfin' & Hcom' & Hend).
    exists ([r] ++ new). split; [eapply extends_trans; eassumption|].
    split; [exact Hsane'|]. rewrite Hchunk1 in *.
    split; [constructor; assumption|].
    split; [exact Hfin'|]. split; [congruence|].
    destruct Hend as [(-> & Hgood' & Hlt & Hacc & Hrec')
                     |(old & q & -> & Hacc & Hend)].
    + left. repeat split; auto; try congruence; try apply Hgood'.
      constructor; [exact Hreply|exact Hacc].
    + right. exists (r :: old), q. split; [reflexivity|].
      split; [constructor; [exact Hreply|exact Hacc]|].
      destruct Hend as [(-> & Hq & Hinv' & Hrec')|(-> & Hq & Hgood' & Hrec')].
      * left. repeat split; auto. congruence.
      * right. repeat split; auto; try congruence; apply Hgood'.
  - destruct (@recover_invalid _ Hinv1)
      as (Hro & Hext2 & Hrec2 & Hinv2 & Hfin2 & Hcom2 & Hsane2).
    destruct (recover s1) as [o2 s2]. simpl fst in *; simpl snd in *.
    subst o2. injection Hloop as <- <-.
    exists ([r] ++ []). split; [eapply extends_trans; eassumption|].
    split; [now apply Hsane2|]. split; [exact Hfull|].
    split; [congruence|]. split; [congruence|].
    right. exists [], r. split; [reflexivity|]. split; [constructor|].
    left. repeat split; auto. congruence.
  - injection Hloop as <- <-. exists [r]. split; [exact Hext|].
    split; [exact Hsane1|]. split; [exact Hfull|].
    split; [exact Hfin1|]. split; [exact Hcom1|].
    right. exists [], r. split; [reflexivity|]. split; [constructor|].
    right. repeat split; auto; try apply (sane_good Hsane1); auto.
Qed.

(** The loop on any sane stream: without an upload object, or with one that
    refuses, the first [transmit_next_chunk] raises and nothing is sent. *)
Lemma write_loop_sane (fuel : nat) (self self' : t) (o : outcome unit) :
  sane self ->
  write_loop fuel self = Some (o, self') ->
  exists new,
    extends self self' new
    /\ sane self'
    /\ Forall (fun r => len (payload r) = _chunk_size self) new.
Proof.
  intros Hsane Hloop.
  destruct (sane_cases Hsane) as [Hnone|[Hrefusing|Hgood]].
  - destruct (Z_lt_le_dec (_buffer_size self) (_chunk_size self))
      as [Hlt|Hle].
    + rewrite write_loop_exit in Hloop by exact Hlt.
      injection Hloop as <- <-. exists [].
      split; [apply extends_refl|]. split; [exact Hsane|constructor].
    + destruct fuel as [|fuel];
        [rewrite write_loop_starved in Hloop by exact Hle; discriminate|].
      rewrite write_loop_enter, transmit_none in Hloop by assumption.
      injection Hloop as <- <-. exists [].
      split; [apply extends_refl|]. split; [exact Hsane|constructor].
  - destruct (Z_lt_le_dec (_buffer_size self) (_chunk_size self))
      as [Hlt|Hle].
    + rewrite write_loop_exit in Hloop by exact Hlt.
      injection Hloop as <- <-. exists [].
      split; [apply extends_refl|]. split; [exact Hsane|constructor].
    + destruct fuel as [|fuel];
        [rewrite write_loop_starved in Hloop by exact Hle; discriminate|].
      rewrite write_loop_enter, transmit_refused in Hloop by assumption.
      injection Hloop as <- <-. exists [].
      split; [apply extends_refl|]. split; [exact Hsane|constructor].
  - destruct (@write_loop_sound _ _ _ _ Hgood Hloop)
      as (new & Hext & Hsane' & Hfull & _).
    exists new. auto.
Qed.

(** With a positive chunk size the loop is left after at most one iteration
    per buffered byte. *)
Lemma write_loop_terminates (fuel : nat) :
  forall self : t,
    sane self ->
    (Z.to_nat (_buffer_size self) <= fuel)%nat ->
    exists o self', write_loop fuel self = Some (o, self').
Proof.
  induction fuel as [|fuel IH]; intros self Hsane Hfuel;
    destruct (Z_lt_le_dec (_buffer_size self) (_chunk_size self))
    as [Hlt|Hle];
    try (rewrite write_loop_exit by exact Hlt; eauto).
  - exfalso. destruct Hsane as (Hchunk & _). lia.
  - rewrite write_loop_enter by exact Hle.
    destruct (sane_cases Hsane) as [Hnone|[Hrefusing|Hgood]].
    + rewrite transmit_none by exact Hnone. eauto.
    + rewrite transmit_refused by exact Hrefusing. eauto.
    + destruct (transmit_extends Hgood)
        as (r & Hext & Hout & Hlen & _ & Hsane1 & _ & _ & Hinv1 & _).
      rewrite Z.min_l in Hlen by exact Hle.
      pose proof (ext_size Hext) as Hsize. rewrite windows_one, Hlen in Hsize.
      destruct Hsane as (Hchunk & _).
      destruct (transmit self) as [o1 s1]. simpl fst in *; simpl snd in *.
      destruct (reply r); simpl in Hout; subst o1.
      * apply IH; [exact Hsane1|lia].
      * destruct (@recover_invalid _ Hinv1) as (Hro & _).
        destruct (recover s1) as [o2 s2]. simpl fst in *. subst o2. eauto.
      * eauto.
Qed.

Lemma write_loop_fuel_irrelevant (fuel fuel' : nat) :
  forall (self : t) (res res' : outcome unit * t),
    write_loop fuel self = Some res ->
    write_loop fuel' self = Some res' ->
    res = res'.
Proof.
  revert fuel'. induction fuel as [|fuel IH]; intros [|fuel'] self res res';
    simpl; destruct (_buffer_size self >=? _chunk_size self);
    try congruence.
  destruct (transmit self) as [[[]|[]] s1]; try congruence.
  - apply IH.
  - destruct (recover s1) as [[[]|e] s2]; try congruence. apply IH.
Qed.

(** ** [write] *)

Lemma sane_push (data : bytes) (self : t) :
  sane self -> sane (push data self).
Proof.
  intros (Hchunk & Hcons & Hreq).
  split; [exact Hchunk|]. split; [now apply consistent_push|exact Hreq].
Qed.

Lemma good_push (data : bytes) (self : t) :
  good self -> good (push data self).
Proof.
  intros (Hchunk & Hcons & Hrest).
  split; [exact Hchunk|]. split; [now apply consistent_push|exact Hrest].
Qed.

Lemma write_sane (fuel : nat) (data : bytes) (self self' : t)
      (o : outcome Z) :
  sane self ->
  write fuel data self = Some (o, self') ->
  exists new,
    extends (push data self) self' new
    /\ sane self'
    /\ Forall (fun r => len (payload r) = _chunk_size self) new.
Proof.
  intros Hsane Hwrite. unfold write in Hwrite.
  destruct (write_loop fuel (push data self)) as [[o1 s1]|] eqn:Hloop;
    [|discriminate].
  destruct (@write_loop_sane _ _ _ _ (sane_push data Hsane) Hloop)
    as (new & Hext & Hsane' & Hfull).
  exists new. destruct o1; injection Hwrite as <- <-; auto.
Qed.

(** [write] returns only [len(data)], and only with less than a chunk left
    in the buffer, whatever the stream. *)
Lemma write_leaves_less (fuel : nat) (data : bytes) (self self' : t)
      (n : Z) :
  write fuel data self = Some (Return n, self') ->
  n = len data /\ _buffer_size self' < _chunk_size self'.
Proof.
  unfold write. intros Hwrite.
  destruct (write_loop fuel (push data self)) as [[[[]|e] s1]|] eqn:Hloop;
    try discriminate.
  injection Hwrite as <- <-. split; [reflexivity|].
  now apply (@write_loop_leaves_less _ _ _ Hloop).
Qed.

Lemma write_sound (fuel : nat) (data : bytes) (self self' : t)
      (o : outcome Z) :
  good self ->
  write fuel data self = Some (o, self') ->
  exists new,
    extends (push data self) self' new
    /\ sane self'
    /\ Forall (fun r => len (payload r) = _chunk_size self) new
    /\ finished_of self' = false
    /\ committed_of self' = committed_of self
    /\ ((o = Return (len data) /\ good self'
         /\ _buffer_size self' < _chunk_size self
         /\ Forall accepted new
         /\ recoveries_of self' = recoveries_of self)
        \/ exists old r,
             new = old ++ [r] /\ Forall accepted old
             /\ ((o = Raise AttributeError /\ reply r = Rejected
                  /\ invalid_of self' = true
                  /\ recoveries_of self' = S (recoveries_of self))
                 \/ (o = Raise TransportError /\ reply r = Failed
                     /\ good self'
                     /\ recoveries_of self' = recoveries_of self))).
Proof.
  intros Hgood Hwrite. unfold write in Hwrite.
  destruct (write_loop fuel (push data self)) as [[o1 s1]|] eqn:Hloop;
    [|discriminate].
  destruct (@write_loop_sound _ _ _ _ (good_push data Hgood) Hloop)
    as (new & Hext & Hsane' & Hall & Hfin & Hcom & Hend).
  exists new.
  destruct Hend as [(-> & Hgood' & Hlt & Hacc & Hrec)
                   |(old & r & -> & Hacc & Hend)].
  - injection Hwrite as <- <-. repeat (split; [assumption|]).
    left. auto.
  - assert (Ho : o = match o1 with Return _ => Return (len data)
                               | Raise e => Raise e end /\ self' = s1)
      by (destruct o1; injection Hwrite as <- <-; auto).
    destruct Ho as (-> & ->). repeat (split; [assumption|]).
    right. exists old, r. split; [reflexivity|]. split; [exact Hacc|].
    destruct Hend as [(-> & Hend)|(-> & Hend)]; [left|right]; auto.
Qed.

Lemma write_terminates (fuel : nat) (data : bytes) (self : t) :
  sane self ->
  (Z.to_nat (_buffer_size self + len data) <= fuel)%nat ->
  exists o self', write fuel data self = Some (o, self').
Proof.
  intros Hsane Hfuel.
  destruct (@write_loop_terminates fuel (push data self))
    as (o & s' & Hloop); [now apply sane_push|exact Hfuel|].
  unfold write. rewrite Hloop. destruct o as [[]|e]; eauto.
Qed.

(** The answers a run got are the transport's. *)
Lemma replies_accepted (transport : AuthorizedSession)
      (new : list transmission) :
  forall ks : list nat,
    always_accepts transport ->
    map reply new = map transport ks ->
    Forall accepted new.
Proof.
  induction new as [|r new IH]; intros [|k ks] Hacc Hmap;
    try discriminate; constructor.
  - simpl in Hmap. injection Hmap as Hr _. unfold accepted.
    rewrite Hr. apply Hacc.
  - simpl in Hmap. injection Hmap as _ Hrest. now apply (IH ks).
Qed.

Lemma accepted_last (old : list transmission) (r : transmission) :
  Forall accepted (old ++ [r]) -> reply r = Accepted.
Proof.
  intros Hall. apply Forall_app in Hall as (_ & Hr). now inversion Hr.
Qed.

(** Against a backend that accepts every request, [write] returns
    [len(data)]. *)
Lemma write_returns (fuel : nat) (data : bytes) (self : t) :
  good self ->
  always_accepts (_transport self) ->
  (Z.to_nat (_buffer_size self + len data) <= fuel)%nat ->
  exists self' new,
    write fuel data self = Some (Return (len data), self')
    /\ extends (push data self) self' new
    /\ good self'
    /\ Forall (fun r => len (payload r) = _chunk_size self) new
    /\ _buffer_size self' < _chunk_size self.
Proof.
  intros Hgood Hacc Hfuel.
  destruct (@write_terminates _ data _ (good_sane Hgood) Hfuel)
    as (o & s' & Hwrite).
  destruct (@write_sound fuel data self s' o Hgood Hwrite)
    as (new & Hext & Hsane' & Hall & _ & _ & Hend).
  exists s', new.
  pose proof (@replies_accepted _ _ _ Hacc (ext_replies Hext)) as Hreplies.
  destruct Hend as [(-> & Hgood' & Hlt & _)|(old & r & -> & _ & Hend)];
    [auto 10|].
  exfalso. apply accepted_last in Hreplies.
  destruct Hend as [(_ & Hr & _)|(_ & Hr & _)]; congruence.
Qed.

(** ** A sequence of writes *)

(** What a sequence of writes does on a stream whose upload object
    transmits: full chunks, none marked final, each starting where the one
    before ended; it ends with every request accepted and the rest of the
    data buffered, or at the first request that was not accepted. *)
Lemma write_all_sound (fuel : nat) (datas : list bytes) :
  forall (self self' : t) (o : outcome unit),
    good self ->
    write_all fuel datas self = Some (o, self') ->
    exists new,
      sent_of self' = sent_of self ++ new
      /\ sane self'
      /\ _chunk_size self' = _chunk_size self
      /\ _transport self' = _transport self
      /\ Forall (fun r => len (payload r) = _chunk_size self) new
      /\ Forall (fun r => final r = false) new
      /\ offsets_from (_read self) new
      /\ _read self' = _read self + len (windows new)
      /\ finished_of self' = false
      /\ committed_of self' = committed_of self
      /\ map reply new
         = map (_transport self)
               (seq (List.length (sent_of self)) (List.length new))
      /\ ((o = Return tt /\ good self' /\ Forall accepted new
           /\ _buffer self ++ List.concat datas = windows new ++ _buffer self'
           /\ (_buffer_size self < _chunk_size self ->
               _buffer_size self' < _chunk_size self)
           /\ recoveries_of self' = recoveries_of self)
          \/ exists old r,
               new = old ++ [r] /\ Forall accepted old
               /\ ((o = Raise AttributeError /\ reply r = Rejected
                    /\ invalid_of self' = true
                    /\ recoveries_of self' = S (recoveries_of self))
                   \/ (o = Raise TransportError /\ reply r = Failed
                       /\ good self'
                       /\ recoveries_of self' = recoveries_of self))).
Proof.
  induction datas as [|data datas IH]; intros self self' o Hgood Hrun;
    simpl in Hrun.
  - injection Hrun as <- <-. exists []. rewrite !app_nil_r.
    change (windows []) with (@nil byte). rewrite len_nil, Z.add_0_r.
    split; [reflexivity|]. split; [now apply good_sane|].
    split; [reflexivity|]. split; [reflexivity|].
    split; [constructor|]. split; [constructor|].
    split; [exact I|]. split; [reflexivity|].
    split; [apply Hgood|]. split; [reflexivity|]. split; [reflexivity|].
    left. split; [reflexivity|]. split; [exact Hgood|].
    split; [constructor|]. auto.
  - destruct (write fuel data self) as [[o1 s1]|] eqn:Hwrite; [|discriminate].
    destruct (@write_sound fuel data self s1 o1 Hgood Hwrite)
      as (new1 & Hext & Hsane1 & Hall1 & Hfin1 & Hcom1 & Hend1).
    pose proof (full_not_final Hext Hall1) as Hnf1.
    destruct Hext as [E1 E2 E3 E4 E5 E6 E7 E8 E9].
    simpl in E1, E2, E3, E4, E5, E6, E7, E8, E9.
    change (sent_of (push data self)) with (sent_of self) in *.
    destruct Hend1 as [(-> & Hgood1 & Hlt1 & Hacc1 & Hrec1)
                      |(old & r & -> & Hacc1 & Hend1)].
    + destruct (IH _ _ _ Hgood1 Hrun)
        as (new2 & S1 & S2 & S3 & S4 & S5 & S6 & S7 & S8 & S9 & S10 & S11
            & Hend2).
      exists (new1 ++ new2). rewrite windows_app, len_app.
      rewrite E5, E6 in *.
      split; [now rewrite S1, E1, app_assoc|].
      split; [exact S2|]. split; [congruence|]. split; [congruence|].
      split; [now apply Forall_app|]. split; [now apply Forall_app|].
      split; [apply offsets_from_app; split; [exact E8|now rewrite <- E3]|].
      split; [lia|]. split; [exact S9|]. split; [congruence|].
      split.
      { rewrite map_app, E9, S11, E1, !length_app, seq_app, map_app.
        reflexivity. }
      destruct Hend2 as [(-> & Hgood2 & Hacc2 & Hbuf2 & Hlt2 & Hrec2)
                        |(old & r & -> & Hacc2 & Hend2)].
      * left. split; [reflexivity|]. split; [exact Hgood2|].
        split; [now apply Forall_app|].
        split; [simpl; rewrite app_assoc, E2, <- !app_assoc;
                now rewrite Hbuf2|].
        split; [intros _; now apply Hlt2|congruence].
      * right. exists (new1 ++ old), r.
        split; [now rewrite app_assoc|].
        split; [now apply Forall_app|].
        destruct Hend2 as [(-> & Hr & Hinv2 & Hrec2)
                          |(-> & Hr & Hgood2 & Hrec2)];
          [left|right]; repeat split; auto; try congruence; apply Hgood2.
    + assert (Ho : o = match o1 with Return _ => Return tt
                                 | Raise e => Raise e end /\ self' = s1).
      { destruct Hend1 as [(-> & _)|(-> & _)]; injection Hrun as <- <-;
          auto. }
      destruct Ho as (-> & ->). exists (old ++ [r]).
      repeat (split; [assumption|]).
      right. exists old, r. split; [reflexivity|]. split; [exact Hacc1|].
      destruct Hend1 as [(-> & Hend)|(-> & Hend)]; [left|right]; auto.
Qed.

(** Against a backend that accepts every request, the writes all return. *)
Lemma write_all_returns (datas : list bytes) :
  forall (fuel : nat) (self : t),
    good self ->
    always_accepts (_transport self) ->
    (Z.to_nat (_buffer_size self + len (List.concat datas)) <= fuel)%nat ->
    exists self', write_all fuel datas self = Some (Return tt, self').
Proof.
  induction datas as [|data datas IH]; intros fuel self Hgood Hacc Hfuel;
    simpl.
  - eauto.
  - simpl in Hfuel. rewrite len_app in Hfuel.
    pose proof (len_nonneg (List.concat datas)) as Hpos.
    destruct (@write_returns fuel data self Hgood Hacc)
      as (s1 & new & Hwrite & Hext & Hgood1 & _ & _); [lia|].
    rewrite Hwrite. apply IH; [exact Hgood1| |].
    + now rewrite (ext_transport Hext).
    + pose proof (ext_size Hext) as Hsize. simpl in Hsize.
      pose proof (len_nonneg (windows new)). lia.
Qed.

(** A sequence of writes on any sane stream. *)
Lemma write_all_sane (fuel : nat) (datas : list bytes) :
  forall (self self' : t) (o : outcome unit),
    sane self ->
    write_all fuel datas self = Some (o, self') ->
    exists new,
      sent_of self' = sent_of self ++ new
      /\ sane self'
      /\ _chunk_size self' = _chunk_size self
      /\ Forall (fun r => len (payload r) = _chunk_size self) new
      /\ _read self' = _read self + len (windows new)
      /\ (o = Return tt ->
          _buffer self ++ List.concat datas = windows new ++ _buffer self'
          /\ (_buffer_size self < _chunk_size self ->
              _buffer_size self' < _chunk_size self)).
Proof.
  induction datas as [|data datas IH]; intros self self' o Hsane Hrun;
    simpl in Hrun.
  - injection Hrun as <- <-. exists []. rewrite !app_nil_r.
    change (windows []) with (@nil byte). rewrite len_nil, Z.add_0_r.
    split; [reflexivity|]. split; [exact Hsane|]. split; [reflexivity|].
    split; [constructor|]. split; [reflexivity|auto].
  - destruct (write fuel data self) as [[o1 s1]|] eqn:Hwrite; [|discriminate].
    destruct (@write_sane _ _ _ _ _ Hsane Hwrite)
      as (new1 & Hext & Hsane1 & Hfull1).
    destruct Hext as [E1 E2 E3 _ E5 _ _ _ _]. simpl in E1, E2, E3, E5.
    change (sent_of (push data self)) with (sent_of self) in E1.
    destruct o1 as [n|e].
    + destruct (@write_leaves_less _ _ _ _ _ Hwrite) as (_ & Hlt1).
      destruct (IH _ _ _ Hsane1 Hrun)
        as (new2 & S1 & S2 & S3 & S4 & S5 & S6).
      exists (new1 ++ new2). rewrite windows_app, len_app. rewrite E5 in *.
      split; [now rewrite S1, E1, app_assoc|]. split; [exact S2|].
      split; [congruence|]. split; [now apply Forall_app|].
      split; [lia|].
      intros Ho. destruct (S6 Ho) as (Hbuf & Hlt).
      split; [|intros _; now apply Hlt].
      simpl. rewrite app_assoc, E2, <- !app_assoc. now rewrite Hbuf.
    + injection Hrun as <- <-. exists new1.
      split; [exact E1|]. split; [exact Hsane1|]. split; [exact E5|].
      split; [exact Hfull1|]. split; [exact E3|].
      intros Ho. discriminate Ho.
Qed.

(** ** Acquisition *)

(** [__enter__] on a new stream: it acquires the stream when the chunk size
    is a multiple of 262144 and raises [ValueError] otherwise, leaving the
    stream as [__init__] made it. *)
Lemma enter_new transport bucket blob ctype (chunk : Z) :
  let fresh := __init__ transport bucket blob ctype chunk in
  (chunk mod 262144 = 0
   /\ fst (__enter__ fresh) = Return tt
   /\ started (snd (__enter__ fresh))
   /\ final_flag_of (snd (__enter__ fresh)) = false
   /\ finished_of (snd (__enter__ fresh)) = false
   /\ invalid_of (snd (__enter__ fresh)) = false)
  \/ (chunk mod 262144 <> 0 /\ __enter__ fresh = (Raise ValueError, fresh)).
Proof.
  intros fresh. unfold __enter__, start, ResumableUpload.new.
  simpl _chunk_size. change ResumableUpload.UPLOAD_CHUNK_SIZE with 262144.
  destruct (Z.eqb_spec (chunk mod 262144) 0) as [Hmod|Hmod].
  - left. split; [exact Hmod|]. split; [reflexivity|].
    split; [eexists; split; reflexivity|]. repeat split.
  - right. auto.
Qed.

(** What [__enter__] leaves of a new stream, acquired or not. *)
Lemma entered_fields transport bucket blob ctype (chunk : Z) :
  let self := snd (__enter__ (__init__ transport bucket blob ctype chunk)) in
  sent_of self = [] /\ _buffer self = [] /\ _buffer_size self = 0
  /\ _read self = 0 /\ _chunk_size self = chunk
  /\ _transport self = transport /\ committed_of self = false
  /\ recoveries_of self = 0%nat.
Proof.
  unfold __enter__, start, ResumableUpload.new. simpl _chunk_size.
  destruct (chunk mod ResumableUpload.UPLOAD_CHUNK_SIZE =? 0); simpl;
    repeat split.
Qed.

Lemma sane_enter transport bucket blob ctype (chunk : Z) :
  0 < chunk ->
  sane (snd (__enter__ (__init__ transport bucket blob ctype chunk))).
Proof.
  intros Hchunk.
  destruct (enter_new transport bucket blob ctype chunk)
    as [(_ & _ & Hstarted & Hflag & _)|(_ & ->)].
  - destruct (entered_fields transport bucket blob ctype chunk)
      as (_ & Hbuf & Hsize & _ & Hc & _).
    cbv zeta in *. split; [lia|].
    split; [unfold consistent; now rewrite Hsize, Hbuf|]. right. auto.
  - split; [exact Hchunk|]. split; [reflexivity|]. now left.
Qed.

(** A stream that has just been acquired. *)
Lemma good_enter transport bucket blob ctype (chunk : Z) :
  0 < chunk ->
  fst (__enter__ (__init__ transport bucket blob ctype chunk)) = Return tt ->
  good (snd (__enter__ (__init__ transport bucket blob ctype chunk))).
Proof.
  intros Hchunk Hreturns.
  destruct (enter_new transport bucket blob ctype chunk)
    as [(_ & _ & Hstarted & Hflag & Hfin & Hinv)|(_ & Hraise)].
  - apply sane_good; auto. now apply sane_enter.
  - rewrite Hraise in Hreturns. discriminate.
Qed.

Lemma enter_returns transport bucket blob ctype (chunk : Z) :
  chunk mod 262144 = 0 ->
  fst (__enter__ (__init__ transport bucket blob ctype chunk)) = Return tt.
Proof.
  intros Hmod.
  destruct (enter_new transport bucket blob ctype chunk)
    as [(_ & Hreturns & _)|(Hno & _)]; [exact Hreturns|contradiction].
Qed.

(** ** Release *)

Lemma len_zero_nil (A : Type) (l : list A) : len l = 0 -> l = [].
Proof. destruct l; [reflexivity|]. unfold len. simpl List.length. lia. Qed.

(** With less than a chunk buffered, the request of [stop] carries the whole
    buffer and is marked final; the object is committed when the backend
    accepts it. *)
Lemma stop_flushes (self : t) :
  good self ->
  _buffer_size self < _chunk_size self ->
  exists r,
    sent_of (snd (stop self)) = sent_of self ++ [r]
    /\ payload r = _buffer self
    /\ start_byte r = _read self
    /\ final r = true
    /\ reply r = _transport self (List.length (sent_of self))
    /\ fst (stop self) = raised_by (reply r)
    /\ _buffer (snd (stop self)) = []
    /\ _buffer_size (snd (stop self)) = 0
    /\ _read (snd (stop self)) = _read self + len (_buffer self)
    /\ committed_of (snd (stop self))
       = committed_of self
         || match reply r with Accepted => true | _ => false end.
Proof.
  intros Hgood Hlt. unfold stop.
  destruct (transmit_extends Hgood)
    as (r & Hext & Hout & Hlen & _ & _ & _ & _ & _ & Hcom).
  destruct Hext as [E1 E2 E3 E4 E5 E6 E7 E8 E9].
  rewrite windows_one in *. rewrite Z.min_r in Hlen by lia.
  destruct Hgood as (_ & Hcons & _). unfold consistent in Hcons.
  assert (Hrest : _buffer (snd (transmit self)) = []).
  { apply len_zero_nil. apply (f_equal (@len byte)) in E2.
    rewrite len_app in E2. lia. }
  assert (Hfinal : final r = true).
  { inversion E7 as [|? ? Hm _]; subst. rewrite Hm. apply Z.ltb_lt. lia. }
  exists r. rewrite Hrest, app_nil_r in E2.
  unfold ResumableUpload.is_commit in Hcom. rewrite Hfinal in Hcom.
  simpl in E8, E9, Hcom.
  repeat split; auto; try congruence; try lia.
Qed.

(** ** A scoped use *)

Lemma scoped_block (fuel : nat) (self : t) (datas : list bytes) :
  scoped fuel self datas
  = match block fuel self datas with
    | None => None
    | Some (Return _, body) => Some (__exit__ None body)
    | Some (Raise e, body) => Some (Raise e, body)
    end.
Proof.
  unfold scoped, block.
  destruct (__enter__ self) as [[[]|e] s0]; [|reflexivity].
  destruct (write_all fuel datas s0) as [[[[]|e] body]|]; reflexivity.
Qed.

(** The block of a scoped use of a new stream: what it has sent when it
    ends, and the three ways in which it ends early. *)
Lemma block_new transport bucket blob ctype (chunk : Z) (fuel : nat)
      (datas : list bytes) (ob : outcome unit) (body : t) :
  0 < chunk ->
  block fuel (__init__ transport bucket blob ctype chunk) datas
  = Some (ob, body) ->
  sane body
  /\ _chunk_size body = chunk
  /\ _transport body = transport
  /\ Forall (fun r => len (payload r) = chunk) (sent_of body)
  /\ Forall (fun r => final r = false) (sent_of body)
  /\ offsets_from 0 (sent_of body)
  /\ _read body = len (windows (sent_of body))
  /\ finished_of body = false
  /\ committed_of body = false
  /\ map reply (sent_of body)
     = map transport (seq 0 (List.length (sent_of body)))
  /\ ((ob = Return tt /\ good body /\ Forall accepted (sent_of body)
       /\ List.concat datas = windows (sent_of body) ++ _buffer body
       /\ _buffer_size body < chunk
       /\ recoveries_of body = 0%nat)
      \/ (ob = Raise ValueError /\ chunk mod 262144 <> 0
          /\ sent_of body = [])
      \/ exists old r,
           sent_of body = old ++ [r] /\ Forall accepted old
           /\ ((ob = Raise AttributeError /\ reply r = Rejected
                /\ invalid_of body = true
                /\ recoveries_of body = 1%nat)
               \/ (ob = Raise TransportError /\ reply r = Failed
                   /\ good body
                   /\ recoveries_of body = 0%nat))).
Proof.
  intros Hchunk Hblock. unfold block in Hblock.
  destruct (entered_fields transport bucket blob ctype chunk)
    as (F1 & F2 & F3 & F4 & F5 & F6 & F7 & F8).
  cbv zeta in *.
  destruct (enter_new transport bucket blob ctype chunk)
    as [(Hmod & Hreturns & _)|(Hmod & Hraise)].
  - pose proof (@good_enter transport bucket blob ctype chunk Hchunk
                           Hreturns) as Hgood.
    destruct (__enter__ (__init__ transport bucket blob ctype chunk))
      as [o0 s0].
    simpl fst in *; simpl snd in *. subst o0.
    destruct (@write_all_sound fuel datas _ _ _ Hgood Hblock)
      as (new & S1 & S2 & S3 & S4 & S5 & S6 & S7 & S8 & S9 & S10 & S11
          & Hend).
    rewrite F1 in S1, S11. simpl in S1, S11. rewrite <- S1 in *.
    rewrite F2, F3, F4, F5, F6, F7, F8 in *. simpl in *.
    repeat (split; [assumption|]).
    destruct Hend as [(-> & Hgood' & Hacc & Hbuf & Hlt & Hrec)|Hend].
    + left. auto 10.
    + right. right. exact Hend.
  - rewrite Hraise in Hblock. injection Hblock as <- <-.
    split; [split; [exact Hchunk|]; split; [reflexivity|now left]|].
    repeat (split; [first [reflexivity|constructor]|]).
    right. left. auto.
Qed.

(** Against a backend that accepts every request, and with a chunk size the
    backend allows, the block of a scoped use returns. *)
Lemma block_returns transport bucket blob ctype (chunk : Z)
      (datas : list bytes) :
  0 < chunk -> chunk mod 262144 = 0 -> always_accepts transport ->
  exists body,
    block (Z.to_nat (len (List.concat datas)))
          (__init__ transport bucket blob ctype chunk) datas
    = Some (Return tt, body).
Proof.
  intros Hchunk Hmod Hacc. unfold block.
  pose proof (@enter_returns transport bucket blob ctype chunk Hmod)
    as Hreturns.
  pose proof (@good_enter transport bucket blob ctype chunk Hchunk Hreturns)
    as Hgood.
  destruct (entered_fields transport bucket blob ctype chunk)
    as (_ & _ & F3 & _ & _ & F6 & _).
  cbv zeta in *.
  destruct (__enter__ (__init__ transport bucket blob ctype chunk))
    as [o0 s0].
  simpl fst in *; simpl snd in *. subst o0.
  apply write_all_returns; [exact Hgood|now rewrite F6|rewrite F3; lia].
Qed.

(** The normal release of a scoped use of a new stream: [stop] sends what is
    left, in one request that is marked final. *)
Lemma release_summary transport bucket blob ctype (chunk : Z) (fuel : nat)
      (datas : list bytes) (body : t) :
  0 < chunk ->
  block fuel (__init__ transport bucket blob ctype chunk) datas
  = Some (Return tt, body) ->
  exists last,
    sent_of (snd (__exit__ None body)) = sent_of body ++ [last]
    /\ Forall (fun r => len (payload r) = chunk) (sent_of body)
    /\ Forall accepted (sent_of body)
    /\ Forall (fun r => final r = false) (sent_of body)
    /\ final last = true
    /\ windows (sent_of body) ++ payload last = List.concat datas
    /\ len (payload last) < chunk
    /\ offsets_from 0 (sent_of body ++ [last])
    /\ reply last = transport (List.length (sent_of body))
    /\ fst (__exit__ None body) = raised_by (reply last)
    /\ _buffer (snd (__exit__ None body)) = []
    /\ _buffer_size (snd (__exit__ None body)) = 0
    /\ _read (snd (__exit__ None body)) = len (List.concat datas)
    /\ committed_of (snd (__exit__ None body))
       = match reply last with Accepted => true | _ => false end.
Proof.
  intros Hchunk Hblock.
  destruct (@block_new _ _ _ _ _ _ _ _ _ Hchunk Hblock)
    as (_ & B2 & B3 & B4 & B5 & B6 & B7 & _ & B9 & _ & Hend).
  destruct Hend as [(_ & Hgood & Hacc & Hbuf & Hlt & _)
                   |[(Habs & _)|(old & r & _ & _ & [(Habs & _)|(Habs & _)])]];
    try discriminate.
  destruct (@stop_flushes body Hgood)
    as (last & F1 & F2 & F3 & F4 & F5 & F6 & F7 & F8 & F9 & F10);
    [now rewrite B2|].
  pose proof Hgood as (_ & Hcons & _). unfold consistent in Hcons.
  exists last. simpl __exit__.
  rewrite F1, F2, F6, F7, F8, F9, F10, F5, B3, B7, B9, Hbuf, len_app.
  repeat (split; [first [assumption|reflexivity|lia]|]).
  split;
    [apply offsets_from_app; split; [exact B6|]; simpl; rewrite F3, B7; auto|].
  repeat split; reflexivity.
Qed.

Lemma windows_last (l : list transmission) (r : transmission) :
  windows (l ++ [r]) = windows l ++ payload r.
Proof. now rewrite windows_app, windows_one. Qed.




(** C6. Backlog below one chunk: on a stream with a positive chunk size,
    whenever a sequence of writes has returned, every request sent carried
    one full chunk and the buffer holds fewer bytes than a chunk; against a
    backend that accepts every request, and with a chunk size it allows, the
    writes do return. *)
Theorem backlog_below_chunk transport bucket blob ctype (chunk : Z)
        (datas : list bytes) :
  0 < chunk ->
  let self := snd (__enter__ (__init__ transport bucket blob ctype chunk)) in
  (forall (fuel : nat) (self' : t),
      write_all fuel datas self = Some (Return tt, self') ->
      Forall (fun r => len (payload r) = chunk) (sent_of self')
      /\ 0 <= _buffer_size self' < chunk
      /\ len (_buffer self') = _buffer_size self')
  /\ (chunk mod 262144 = 0 -> always_accepts transport ->
      exists (fuel : nat) (self' : t),
        write_all fuel datas self = Some (Return tt, self')).
Proof.
  intros Hchunk self.
  pose proof (@sane_enter transport bucket blob ctype chunk Hchunk) as Hsane.
  destruct (entered_fields transport bucket blob ctype chunk)
    as (F1 & _ & F3 & _ & F5 & F6 & _).
  fold self in Hsane, F1, F3, F5, F6. split.
  - intros fuel self' Hrun.
    destruct (@write_all_sane fuel datas _ _ _ Hsane Hrun)
      as (new & S1 & (_ & S2 & _) & S3 & S4 & _ & S5).
    rewrite F1 in S1. simpl in S1. rewrite F5 in *.
    assert (Hlt : _buffer_size self' < chunk)
      by (apply (S5 eq_refl); lia).
    unfold consistent in S2. rewrite S1.
    pose proof (len_nonneg (_buffer self')).
    repeat split; auto; lia.
  - intros Hmod Hacc.
    exists (Z.to_nat (len (List.concat datas))).
    apply write_all_returns.
    + apply good_enter; [exact Hchunk|now apply enter_returns].
    + now rewrite F6.
    + rewrite F3. lia.
Qed.

Lemma backlog_below_chunk_witness :
  exists (fuel : nat) (self' : t),
    write_all fuel [zeros 300000; abcde; zeros 300000]
              (acquired accepting 262144)
    = Some (Return tt, self')
    /\ Forall (fun r => len (payload r) = 262144) (sent_of self')
    /\ 0 <= _buffer_size self' < 262144
    /\ len (_buffer self') = _buffer_size self'.
Proof.
  assert (Hchunk : 0 < 262144) by lia.
  destruct (@backlog_below_chunk accepting "bucket" "mail/attachment.pdf"
                                 "application/pdf" 262144
                                 [zeros 300000; abcde; zeros 300000] Hchunk)
    as (Hsound & Hruns).
  destruct Hruns as (fuel & self' & Hrun);
    [reflexivity|intros k; reflexivity|].
  exists fuel, self'. split; [exact Hrun|].
  exact (Hsound fuel self' Hrun).
Defined.

(** ** Scenario A *)

Lemma app_split_at (A : Type) (k : Z) (l a b : list A) :
  l = a ++ b -> len a = k ->
  a = firstn (Z.to_nat k) l /\ b = skipn (Z.to_nat k) l.
Proof.
  intros -> Hk. unfold len in Hk.
  replace (Z.to_nat k) with (List.length a + 0)%nat by lia.
  rewrite firstn_app_2, skipn_app. simpl.
  rewrite Nat.add_0_r, skipn_all, Nat.sub_diag, app_nil_r. auto.
Qed.

Lemma good_acquired (transport : AuthorizedSession) (chunk : Z) :
  0 < chunk -> chunk mod 262144 = 0 -> good (acquired transport chunk).
Proof.
  intros Hchunk Hmod. apply good_enter; [exact Hchunk|].
  now apply enter_returns.
Qed.

(** C5. Scenario A: with chunk size 262144 and an empty buffer, one write of
    300000 bytes on a stream whose upload object transmits sends exactly one
    request, of the first 262144 bytes and not marked final; when the
    backend accepts that request, [write] returns 300000 with the other
    37856 bytes buffered. *)
Theorem scenario_a (fuel : nat) (data : bytes) (self : t) :
  good self ->
  _chunk_size self = 262144 ->
  _buffer self = [] ->
  len data = 300000 ->
  _transport self (List.length (sent_of self)) = Accepted ->
  exists (r : transmission) (self' : t),
    write (S fuel) data self = Some (Return 300000, self')
    /\ sent_of self' = sent_of self ++ [r]
    /\ payload r = firstn (Z.to_nat 262144) data
    /\ len (payload r) = 262144
    /\ final r = false
    /\ reply r = Accepted
    /\ _buffer self' = skipn (Z.to_nat 262144) data
    /\ _buffer_size self' = 37856.
Proof.
  intros Hgood Hchunk Hempty Hdata Hreply.
  pose proof (good_push data Hgood) as Hgood0.
  destruct Hgood as (_ & Hcons & _). unfold consistent in Hcons.
  rewrite Hempty, len_nil in Hcons.
  destruct (transmit_extends Hgood0)
    as (r & Hext & Hout & Hlen & _ & _ & _ & _ & _ & _).
  destruct Hext as [E1 E2 E3 E4 E5 E6 E7 E8 E9].
  simpl in E1, E2, E4, E5, E6, E7, E9, Hlen. rewrite windows_one in *.
  rewrite Hempty in E2. simpl in E2.
  rewrite Hcons, Hdata, Hchunk in *. simpl in Hlen.
  change (Z.min 262144 300000) with 262144 in Hlen.
  change (sent_of (push data self)) with (sent_of self) in *.
  destruct (@app_split_at _ _ _ _ _ E2 Hlen) as (Hhead & Htail).
  assert (Hanswer : reply r = Accepted).
  { simpl in E9. injection E9 as E9. now rewrite E9. }
  assert (Hfinal : final r = false).
  { inversion E7 as [|? ? Hm _]; subst. now rewrite Hm, Hlen. }
  assert (Hcond : _chunk_size (push data self)
                  <= _buffer_size (push data self)).
  { simpl. rewrite Hcons, Hdata, Hchunk. lia. }
  unfold write. rewrite Hdata, (@write_loop_enter fuel _ Hcond).
  destruct (transmit (push data self)) as [o1 s1].
  simpl fst in *; simpl snd in *.
  assert (Hsmall : _buffer_size s1 < _chunk_size s1)
    by (rewrite E4, E5, Hlen; lia).
  rewrite Hanswer in Hout. simpl in Hout. subst o1.
  rewrite (@write_loop_exit fuel _ Hsmall).
  exists r, s1. repeat split; auto. lia.
Qed.

Lemma scenario_a_witness :
  exists (r : transmission) (self' : t),
    write 1 (zeros 300000) (acquired accepting 262144)
    = Some (Return 300000, self')
    /\ sent_of self' = sent_of (acquired accepting 262144) ++ [r]
    /\ payload r = firstn (Z.to_nat 262144) (zeros 300000)
    /\ len (payload r) = 262144
    /\ final r = false
    /\ reply r = Accepted
    /\ _buffer self' = skipn (Z.to_nat 262144) (zeros 300000)
    /\ _buffer_size self' = 37856.
Proof.
  apply (@scenario_a 0 (zeros 300000) (acquired accepting 262144)).
  - apply good_acquired; [lia|reflexivity].
  - reflexivity.
  - reflexivity.
  - vm_compute. reflexivity.
  - reflexivity.
Defined.

(** ** Retries *)

Lemma len_zeros (n : Z) : 0 <= n -> len (zeros n) = n.
Proof. intros Hn. unfold len, zeros. rewrite repeat_length. lia. Qed.



Lemma skipn_app_exact (A : Type) (l l' : list A) :
  skipn (List.length l) (l ++ l') = l'.
Proof.
  rewrite skipn_app, skipn_all, Nat.sub_diag. reflexivity.
Qed.




(** ** The buffer under pushes and pops *)

Lemma buffer_step_size_nonneg (o : buffer_op) (self : t) :
  0 <= _buffer_size self -> 0 <= _buffer_size (buffer_step o self).
Proof.
  intros Hs. destruct o as [data|n]; simpl.
  - pose proof (len_nonneg data). lia.
  - lia.
Qed.

Lemma buffer_run_size_nonneg (ops : list buffer_op) :
  forall self : t,
    0 <= _buffer_size self -> 0 <= _buffer_size (buffer_run ops self).
Proof.
  induction ops as [|o ops IH]; intros self Hs; simpl; [exact Hs|].
  apply IH. now apply buffer_step_size_nonneg.
Qed.

Lemma buffer_run_consistent (ops : list buffer_op) :
  forall self : t,
    Forall nonneg_pop ops -> consistent self ->
    consistent (buffer_run ops self).
Proof.
  induction ops as [|o ops IH]; intros self Hops Hc; simpl; [exact Hc|].
  inversion Hops as [|? ? Ho Hrest]; subst. apply IH; [exact Hrest|].
  destruct o as [data|n]; simpl buffer_step.
  - now apply consistent_push.
  - now apply read_consistent.
Qed.

(** C4, as the code has it. After any pushes and pops the size is not
    negative; and when every pop asked for a non-negative number of bytes,
    [read(n)] with [n >= 0] returns exactly the first [min(n, size)] bytes
    of the buffer, keeps the rest in order, and lowers the size by as much. *)
Theorem pop_bounds transport bucket blob ctype (chunk : Z) :
  let fresh := __init__ transport bucket blob ctype chunk in
  (forall ops : list buffer_op, 0 <= _buffer_size (buffer_run ops fresh))
  /\ (forall (ops : list buffer_op) (n : Z),
         Forall nonneg_pop ops -> 0 <= n ->
         let self := buffer_run ops fresh in
         let k := Z.min n (_buffer_size self) in
         len (fst (read n self)) = k
         /\ fst (read n self) = firstn (Z.to_nat k) (_buffer self)
         /\ _buffer self = fst (read n self) ++ _buffer (snd (read n self))
         /\ _buffer_size (snd (read n self)) = _buffer_size self - k
         /\ _buffer_size (snd (read n self))
            = len (_buffer (snd (read n self)))
         /\ 0 <= _buffer_size (snd (read n self))).
Proof.
  intros fresh. split.
  - intros ops. apply buffer_run_size_nonneg. simpl. lia.
  - intros ops n Hops Hn self k.
    assert (Hc : consistent self).
    { apply buffer_run_consistent; [exact Hops|reflexivity]. }
    destruct (@read_consistent n self Hc Hn) as (Hfst & _ & Hlen & Hc').
    destruct (read_fields n self) as (_ & _ & _ & _ & Hsize & Hbuf).
    cbv zeta in *. fold k in Hfst, Hlen, Hsize.
    unfold consistent in Hc'.
    pose proof (len_nonneg (_buffer (snd (read n self)))).
    repeat split; auto. lia.
Qed.

Lemma pop_bounds_witness :
  Forall nonneg_pop [Push abcde; Pop 2; Push fgh]
  /\ 0 <= 4
  /\ let self :=
       buffer_run [Push abcde; Pop 2; Push fgh]
                  (__init__ accepting "bucket" "blob" "text/xml" 4) in
     let k := Z.min 4 (_buffer_size self) in
     len (fst (read 4 self)) = k
     /\ fst (read 4 self) = firstn (Z.to_nat k) (_buffer self)
     /\ _buffer self = fst (read 4 self) ++ _buffer (snd (read 4 self))
     /\ _buffer_size (snd (read 4 self)) = _buffer_size self - k
     /\ _buffer_size (snd (read 4 self)) = len (_buffer (snd (read 4 self)))
     /\ 0 <= _buffer_size (snd (read 4 self)).
Proof.
  assert (Hops : Forall nonneg_pop [Push abcde; Pop 2; Push fgh]).
  { repeat constructor. simpl. lia. }
  split; [exact Hops|]. split; [lia|].
  apply (proj2 (pop_bounds accepting "bucket" "blob" "text/xml" 4));
    [exact Hops|lia].
Defined.

(** C4, as the claim has it, fails: [read(-2)] on a buffer holding b"abcde"
    returns the 3 bytes b"abc", not [min(-2, 5)] bytes, keeps b"de" and
    counts the size up to 7. *)
Lemma pop_negative_size :
  let self :=
    buffer_run [Push abcde] (__init__ accepting "bucket" "blob" "text/xml" 10)
  in
  _buffer_size self = 5
  /\ Z.min (-2) (_buffer_size self) = -2
  /\ len (fst (read (-2) self)) = 3
  /\ len (fst (read (-2) self)) <> Z.min (-2) (_buffer_size self)
  /\ _buffer (snd (read (-2) self)) = [x64; x65]
  /\ _buffer_size (snd (read (-2) self)) = 7.
Proof.
  vm_compute. repeat split; discriminate.
Qed.

(** ** Calls of a client *)

Lemma sane_read (n : Z) (self : t) :
  sane self -> 0 <= n -> sane (snd (read n self)).
Proof.
  intros (Hchunk & Hcons & Hreq) Hn.
  destruct (@read_consistent n self Hcons Hn) as (_ & _ & _ & Hcons').
  split; [exact Hchunk|]. split; [exact Hcons'|exact Hreq].
Qed.

Lemma call_step_sound (fuel : nat) (c : call) (self self' : t)
      (out : list bytes) :
  sane self -> nonneg_read c ->
  call_step fuel c self = Some (out, self') ->
  sane self'
  /\ _buffer self ++ written [c] = List.concat out ++ _buffer self'
  /\ _read self' = _read self + len (List.concat out).
Proof.
  intros Hsane Hc Hstep. destruct c as [data|n|]; unfold call_step in Hstep.
  - destruct (write fuel data self) as [[o s1]|] eqn:Hwrite; [|discriminate].
    injection Hstep as <- <-.
    destruct (@write_sane fuel data self s1 o Hsane Hwrite)
      as (new & Hext & Hsane' & _).
    destruct Hext as [E1 E2 E3 _ _ _ _ _ _]. simpl in E1, E2, E3.
    change (sent_of (push data self)) with (sent_of self) in E1.
    unfold sent_since. rewrite E1, skipn_app_exact.
    fold (windows new). unfold written. simpl. rewrite app_nil_r.
    auto.
  - simpl in Hc. pose proof (sane_read Hsane Hc) as Hsane'.
    destruct Hsane as (_ & Hcons & _).
    destruct (@read_consistent n self Hcons Hc) as (_ & _ & Hlen & _).
    destruct (read_fields n self) as (_ & _ & _ & F4 & _ & F6).
    cbv zeta in *.
    destruct (read n self) as [b s1]. injection Hstep as <- <-.
    simpl fst in *; simpl snd in *.
    unfold written. simpl. rewrite !app_nil_r.
    split; [exact Hsane'|]. split; [exact F6|lia].
  - injection Hstep as <- <-. unfold written. simpl.
    rewrite app_nil_r, len_nil. split; [exact Hsane|]. split; [reflexivity|].
    lia.
Qed.

Lemma written_cons (c : call) (cs : list call) :
  written (c :: cs) = written [c] ++ written cs.
Proof. unfold written. simpl. now rewrite app_nil_r. Qed.

Lemma call_run_sound (fuel : nat) (cs : list call) :
  forall (self self' : t) (outs : list bytes),
    sane self -> Forall nonneg_read cs ->
    call_run fuel cs self = Some (outs, self') ->
    sane self'
    /\ _buffer self ++ written cs = List.concat outs ++ _buffer self'
    /\ _read self' = _read self + len (List.concat outs).
Proof.
  induction cs as [|c cs IH]; intros self self' outs Hsane Hcs Hrun;
    simpl in Hrun.
  - injection Hrun as <- <-. simpl. rewrite app_nil_r, len_nil.
    split; [exact Hsane|]. split; [reflexivity|lia].
  - inversion Hcs as [|? ? Hc Hrest]; subst.
    destruct (call_step fuel c self) as [[out s1]|] eqn:Hstep;
      [|discriminate].
    destruct (call_run fuel cs s1) as [[outs1 s2]|] eqn:Hrun1;
      [|discriminate].
    injection Hrun as <- <-.
    destruct (@call_step_sound fuel c self s1 out Hsane Hc Hstep)
      as (Hsane1 & Hbuf1 & Hread1).
    destruct (IH _ _ _ Hsane1 Hrest Hrun1) as (Hsane2 & Hbuf2 & Hread2).
    rewrite written_cons, concat_app, len_app.
    split; [exact Hsane2|]. split; [|lia].
    rewrite app_assoc, Hbuf1, <- !app_assoc. now rewrite Hbuf2.
Qed.

(** With a positive chunk size every call ends: one unit of fuel per byte
    buffered or written is enough for the loops of all the writes. *)
Lemma call_run_terminates (cs : list call) :
  forall (fuel : nat) (self : t),
    sane self -> Forall nonneg_read cs ->
    (Z.to_nat (_buffer_size self + len (written cs)) <= fuel)%nat ->
    exists (outs : list bytes) (self' : t),
      call_run fuel cs self = Some (outs, self').
Proof.
  induction cs as [|c cs IH]; intros fuel self Hsane Hcs Hfuel; simpl.
  - eauto.
  - inversion Hcs as [|? ? Hc Hrest]; subst.
    rewrite written_cons, len_app in Hfuel.
    pose proof (len_nonneg (written cs)) as Hpos.
    pose proof (len_nonneg (written [c])) as Hpos1.
    assert (Hstep : exists out s1,
               call_step fuel c self = Some (out, s1)
               /\ _buffer_size s1 <= _buffer_size self + len (written [c])).
    { destruct c as [data|n|]; unfold call_step.
      - assert (Hone : written [CallWrite data] = data)
          by (unfold written; simpl; apply app_nil_r).
        rewrite Hone in *.
        destruct (@write_terminates fuel data self Hsane) as (o & s1 & Hw);
          [lia|].
        rewrite Hw. eexists. eexists. split; [reflexivity|].
        destruct (@write_sane fuel data self s1 o Hsane Hw)
          as (new & Hext & _).
        pose proof (ext_size Hext) as Hsize. simpl in Hsize.
        pose proof (len_nonneg (windows new)). lia.
      - simpl in Hc. destruct Hsane as (_ & Hcons & _).
        unfold consistent in Hcons.
        pose proof (len_nonneg (_buffer self)).
        destruct (read_fields n self) as (_ & _ & _ & _ & F5 & _).
        cbv zeta in F5.
        destruct (read n self) as [b s1]. simpl snd in F5.
        eexists. eexists. split; [reflexivity|]. lia.
      - eexists. eexists. split; [reflexivity|]. lia. }
    destruct Hstep as (out & s1 & Hstep & Hsize). rewrite Hstep.
    destruct (@call_step_sound fuel c self s1 out Hsane Hc Hstep)
      as (Hsane1 & _).
    destruct (IH fuel s1 Hsane1 Hrest) as (outs & s2 & Hrun); [lia|].
    rewrite Hrun. eauto.
Qed.

(** C7, as the code has it. On a new stream with a positive chunk size, as
    [__enter__] leaves it, under calls of write, read and tell whose read
    sizes are not negative, [tell()] is the number of bytes [read] has
    returned so far, to the caller and to the upload object; it does not
    decrease under further such calls and does not exceed the number of
    bytes written. *)
Theorem cursor_monotone transport bucket blob ctype (chunk : Z)
        (fuel : nat) (cs cs' : list call) (outs outs' : list bytes)
        (self self' : t) :
  0 < chunk ->
  Forall nonneg_read cs ->
  Forall nonneg_read cs' ->
  call_run fuel cs
           (snd (__enter__ (__init__ transport bucket blob ctype chunk)))
  = Some (outs, self) ->
  call_run fuel cs' self = Some (outs', self') ->
  tell self = len (List.concat outs)
  /\ tell self <= tell self'
  /\ tell self <= len (written cs)
  /\ tell self' = len (List.concat (outs ++ outs')).
Proof.
  intros Hchunk Hcs Hcs' Hrun Hrun'.
  pose proof (@sane_enter transport bucket blob ctype chunk Hchunk) as Hsane.
  destruct (entered_fields transport bucket blob ctype chunk)
    as (_ & F2 & _ & F4 & _).
  cbv zeta in *.
  destruct (@call_run_sound fuel cs _ _ _ Hsane Hcs Hrun)
    as (Hsane1 & Hbuf1 & Hread1).
  destruct (@call_run_sound fuel cs' _ _ _ Hsane1 Hcs' Hrun')
    as (_ & _ & Hread2).
  rewrite F2 in Hbuf1. rewrite F4 in Hread1. simpl in Hbuf1, Hread1.
  unfold tell.
  apply (f_equal (@len byte)) in Hbuf1. rewrite len_app in Hbuf1.
  pose proof (len_nonneg (_buffer self)).
  pose proof (len_nonneg (List.concat outs')).
  rewrite concat_app, len_app. repeat split; lia.
Qed.

Lemma cursor_monotone_witness :
  exists (outs outs' : list bytes) (self self' : t),
    call_run 1 [CallWrite (zeros 300000); CallRead 1; CallTell]
             (acquired rejecting 262144)
    = Some (outs, self)
    /\ call_run 1 [CallWrite fgh; CallRead 0] self = Some (outs', self')
    /\ tell self = len (List.concat outs)
    /\ tell self <= tell self'
    /\ tell self
       <= len (written [CallWrite (zeros 300000); CallRead 1; CallTell])
    /\ tell self' = len (List.concat (outs ++ outs')).
Proof.
  assert (Hruns :
            match call_run 1 [CallWrite (zeros 300000); CallRead 1; CallTell]
                           (acquired rejecting 262144)
            with
            | Some (_, self) =>
                match call_run 1 [CallWrite fgh; CallRead 0] self with
                | Some _ => true
                | None => false
                end
            | None => false
            end = true) by (vm_compute; reflexivity).
  revert Hruns.
  destruct (call_run 1 [CallWrite (zeros 300000); CallRead 1; CallTell]
                     (acquired rejecting 262144)) as [[outs self]|] eqn:Hrun;
    [|intros H; discriminate H].
  destruct (call_run 1 [CallWrite fgh; CallRead 0] self)
    as [[outs' self']|] eqn:Hrun'; [|intros H; discriminate H].
  intros _. exists outs, outs', self, self'.
  split; [reflexivity|]. split; [exact Hrun'|].
  apply (@cursor_monotone rejecting "bucket" "mail/attachment.pdf"
                          "application/pdf" 262144 1
                          [CallWrite (zeros 300000); CallRead 1; CallTell]
                          [CallWrite fgh; CallRead 0]
                          outs outs' self self').
  - lia.
  - repeat constructor. simpl. lia.
  - repeat constructor. simpl. lia.
  - exact Hrun.
  - exact Hrun'.
Defined.

(** C7, as the claim has it, fails: after [write(b"abcde")], [read(-2)]
    returns 3 bytes and moves the cursor from 0 back to -2. *)
Lemma cursor_goes_back :
  exists (outs : list bytes) (self : t),
    call_run 1 [CallWrite abcde; CallRead (-2)] (acquired accepting 262144)
    = Some (outs, self)
    /\ tell (acquired accepting 262144) = 0
    /\ tell self = -2
    /\ len (List.concat outs) = 3
    /\ tell self <> len (List.concat outs)
    /\ ~ tell (acquired accepting 262144) <= tell self.
Proof.
  eexists. eexists. split; [vm_compute; reflexivity|].
  vm_compute. repeat split; try discriminate. intros H. now apply H.
Qed.

(** ** Conservation *)

Lemma transmit_sum (self : t) :
  _read (snd (transmit self)) + _buffer_size (snd (transmit self))
  = _read self + _buffer_size self.
Proof.
  unfold transmit. destruct (_request self) as [request|]; [|reflexivity].
  unfold ResumableUpload.transmit_next_chunk.
  destruct (ResumableUpload.finished request
            || ResumableUpload.invalid request); [reflexivity|].
  simpl stream_read.
  destruct (_transport self _); simpl; lia.
Qed.

Lemma recover_sum (self : t) :
  _read (snd (recover self)) + _buffer_size (snd (recover self))
  = _read self + _buffer_size self.
Proof.
  unfold recover. destruct (_request self) as [request|]; [|reflexivity].
  unfold ResumableUpload.recover.
  destruct (ResumableUpload.invalid request); reflexivity.
Qed.

Lemma write_loop_sum (fuel : nat) :
  forall (self self' : t) (o : outcome unit),
    write_loop fuel self = Some (o, self') ->
    _read self' + _buffer_size self' = _read self + _buffer_size self.
Proof.
  induction fuel as [|fuel IH]; intros self self' o Hloop; simpl in Hloop;
    destruct (_buffer_size self >=? _chunk_size self);
    try discriminate; try (injection Hloop as <- <-; reflexivity).
  pose proof (transmit_sum self) as Ht.
  destruct (transmit self) as [[[]|e] s1]; simpl snd in Ht.
  - rewrite (IH _ _ _ Hloop). exact Ht.
  - pose proof (recover_sum s1) as Hr.
    destruct e; try (injection Hloop as <- <-; exact Ht).
    destruct (recover s1) as [[[]|e] s2]; simpl snd in Hr.
    + rewrite (IH _ _ _ Hloop). lia.
    + injection Hloop as <- <-. lia.
Qed.

Lemma write_sum (fuel : nat) (data : bytes) (self self' : t)
      (o : outcome Z) :
  write fuel data self = Some (o, self') ->
  _read self' + _buffer_size self'
  = _read self + _buffer_size self + len data.
Proof.
  unfold write. intros Hwrite.
  destruct (write_loop fuel (push data self)) as [[o1 s1]|] eqn:Hloop;
    [|discriminate].
  apply write_loop_sum in Hloop. simpl in Hloop.
  destruct o1; injection Hwrite as <- <-; lia.
Qed.

Lemma call_run_sum (fuel : nat) (cs : list call) :
  forall (self self' : t) (outs : list bytes),
    call_run fuel cs self = Some (outs, self') ->
    _read self' + _buffer_size self'
    = _read self + _buffer_size self + len (written cs).
Proof.
  induction cs as [|c cs IH]; intros self self' outs Hrun; simpl in Hrun.
  - injection Hrun as <- <-. unfold written. simpl. rewrite len_nil. lia.
  - destruct (call_step fuel c self) as [[out s1]|] eqn:Hstep;
      [|discriminate].
    destruct (call_run fuel cs s1) as [[outs1 s2]|] eqn:Hrun1;
      [|discriminate].
    injection Hrun as <- <-. rewrite (IH _ _ _ Hrun1).
    rewrite written_cons, len_app.
    destruct c as [data|n|]; unfold call_step in Hstep.
    + destruct (write fuel data self) as [[o s]|] eqn:Hwrite;
        [|discriminate].
      injection Hstep as <- <-. apply write_sum in Hwrite.
      unfold written. simpl. rewrite app_nil_r. lia.
    + injection Hstep as <- <-. unfold written, len. simpl. lia.
    + injection Hstep as <- <-. unfold written, len. simpl. lia.
Qed.

(** C10. Conservation of bytes. After any calls of write and read on a new
    stream, before or after [__enter__], [tell()] plus [_buffer_size] is the
    number of bytes written. With a positive chunk size and read sizes that
    are not negative the calls all end, and the bytes returned by [read]
    followed by the bytes still buffered are, in order, the bytes
    written. *)
Theorem conservation transport bucket blob ctype (chunk : Z)
        (cs : list call) :
  Forall nonneg_read cs ->
  let fresh := __init__ transport bucket blob ctype chunk in
  (forall (fuel : nat) (self0 self : t) (outs : list bytes),
      self0 = fresh \/ self0 = snd (__enter__ fresh) ->
      call_run fuel cs self0 = Some (outs, self) ->
      tell self + _buffer_size self = len (written cs))
  /\ (forall (fuel : nat) (self0 self : t) (outs : list bytes),
         0 < chunk ->
         self0 = fresh \/ self0 = snd (__enter__ fresh) ->
         call_run fuel cs self0 = Some (outs, self) ->
         List.concat outs ++ _buffer self = written cs
         /\ len (_buffer self) = _buffer_size self
         /\ tell self = len (List.concat outs))
  /\ (forall self0 : t,
         0 < chunk ->
         self0 = fresh \/ self0 = snd (__enter__ fresh) ->
         exists (outs : list bytes) (self : t),
           call_run (Z.to_nat (len (written cs))) cs self0
           = Some (outs, self)).
Proof.
  intros Hcs fresh.
  destruct (entered_fields transport bucket blob ctype chunk)
    as (_ & F2 & F3 & F4 & _).
  fold fresh in F2, F3, F4.
  assert (Hsane : forall self0,
             0 < chunk ->
             self0 = fresh \/ self0 = snd (__enter__ fresh) -> sane self0).
  { intros self0 Hchunk [-> | ->].
    - split; [exact Hchunk|]. split; [reflexivity|now left].
    - now apply sane_enter. }
  split; [|split].
  - intros fuel self0 self outs Hself0 Hrun.
    apply call_run_sum in Hrun. unfold tell. rewrite Hrun.
    destruct Hself0 as [-> | ->]; [simpl; lia|]. rewrite F3, F4. lia.
  - intros fuel self0 self outs Hchunk Hself0 Hrun.
    destruct (@call_run_sound fuel cs _ _ _ (Hsane _ Hchunk Hself0) Hcs Hrun)
      as ((_ & Hcons & _) & Hbuf & Hread).
    unfold tell. unfold consistent in Hcons.
    destruct Hself0 as [-> | ->].
    + simpl in Hbuf, Hread. repeat split; auto.
    + rewrite F2 in Hbuf. rewrite F4 in Hread. simpl in Hbuf, Hread.
      repeat split; auto.
  - intros self0 Hchunk Hself0.
    apply call_run_terminates; [now apply Hsane|exact Hcs|].
    destruct Hself0 as [-> | ->]; [simpl; lia|]. rewrite F3. lia.
Qed.

Lemma conservation_witness :
  exists (outs : list bytes) (self : t),
    call_run 1 [CallWrite (zeros 300000); CallRead 1; CallWrite fgh]
             (acquired accepting 262144)
    = Some (outs, self)
    /\ tell self + _buffer_size self
       = len (written [CallWrite (zeros 300000); CallRead 1; CallWrite fgh])
    /\ List.concat outs ++ _buffer self
       = written [CallWrite (zeros 300000); CallRead 1; CallWrite fgh]
    /\ len (_buffer self) = _buffer_size self
    /\ tell self = len (List.concat outs).
Proof.
  assert (Hcs : Forall nonneg_read
                       [CallWrite (zeros 300000); CallRead 1; CallWrite fgh]).
  { repeat constructor. simpl. lia. }
  destruct (@conservation accepting "bucket" "mail/attachment.pdf"
                          "application/pdf" 262144 _ Hcs)
    as (Hsum & Hbytes & _).
  assert (Hruns :
            match call_run 1 [CallWrite (zeros 300000); CallRead 1;
                              CallWrite fgh]
                           (acquired accepting 262144)
            with
            | Some _ => true
            | None => false
            end = true) by (vm_compute; reflexivity).
  revert Hruns.
  destruct (call_run 1 [CallWrite (zeros 300000); CallRead 1; CallWrite fgh]
                     (acquired accepting 262144)) as [[outs self]|] eqn:Hrun;
    [|intros H; discriminate H].
  intros _. exists outs, self. split; [reflexivity|].
  split; [exact (Hsum 1%nat (acquired accepting 262144) self outs
                      (or_intror eq_refl) Hrun)|].
  apply (Hbytes 1%nat (acquired accepting 262144) self outs);
    [lia|now right|exact Hrun].
Defined.

(** ** Release and finalization *)





(** ** Equivalence of the two streams *)

Lemma same_read (n : Z) (b : Base.t) (m : Main.t) :
  same_stream b m -> same_result (Base.read n b) (Main.read n m).
Proof.
  intros (H1 & H2 & H3 & H4 & H5 & H6 & H7 & H8).
  unfold same_result, same_stream, Base.read, Main.read. simpl.
  rewrite H3, H4. repeat split; auto; congruence.
Qed.

Lemma same_tell (b : Base.t) (m : Main.t) :
  same_stream b m -> Base.tell b = Main.tell m.
Proof. intros (_ & _ & _ & _ & _ & H6 & _). exact H6. Qed.

Lemma same_push (data : bytes) (b : Base.t) (m : Main.t) :
  same_stream b m -> same_stream (Base.push data b) (Main.push data m).
Proof.
  intros (H1 & H2 & H3 & H4 & H5 & H6 & H7 & H8).
  unfold same_stream. simpl. repeat split; auto; congruence.
Qed.

Lemma same_transmit (b : Base.t) (m : Main.t) :
  same_stream b m -> same_result (Base.transmit b) (Main.transmit m).
Proof.
  intros Hsame. pose proof Hsame as (H1 & H2 & H3 & H4 & H5 & H6 & H7 & H8).
  unfold same_result, Base.transmit, Main.transmit.
  destruct (Base._request b) as [r1|] eqn:Hb,
           (Main._request m) as [r2|] eqn:Hm; try contradiction.
  - destruct H8 as (U1 & U2 & U3 & U4 & U5 & U6 & U7 & U8 & U9).
    unfold ResumableUpload.transmit_next_chunk. rewrite U6, U7.
    destruct (ResumableUpload.finished r2 || ResumableUpload.invalid r2).
    + simpl. unfold same_stream, same_upload; simpl.
      repeat split; auto.
    + simpl stream_read. simpl stream_tell.
      unfold Base.read, Main.read, Base.tell, Main.tell.
      rewrite H7, U9, U2, U3, H3, H4, H6.
      destruct (Main._transport m _); simpl; unfold same_stream, same_upload;
        simpl; repeat split; auto; congruence.
  - simpl. unfold same_stream. rewrite Hb, Hm. repeat split; auto.
Qed.

Lemma same_recover (b : Base.t) (m : Main.t) :
  same_stream b m -> same_result (Base.recover b) (Main.recover m).
Proof.
  intros (H1 & H2 & H3 & H4 & H5 & H6 & H7 & H8).
  unfold same_result, Base.recover, Main.recover.
  destruct (Base._request b) as [r1|] eqn:Hb,
           (Main._request m) as [r2|] eqn:Hm; try contradiction.
  - destruct H8 as (U1 & U2 & U3 & U4 & U5 & U6 & U7 & U8 & U9).
    unfold ResumableUpload.recover. rewrite U7. simpl stream_seek.
    destruct (ResumableUpload.invalid r2) eqn:Hinv;
      simpl; unfold same_stream, same_upload; simpl;
      rewrite ?U9; repeat split; auto; try congruence.
  - simpl. unfold same_stream. rewrite Hb, Hm. repeat split; auto.
Qed.

Lemma same_write_loop (fuel : nat) :
  forall (b : Base.t) (m : Main.t),
    same_stream b m ->
    same_run (Base.write_loop fuel b) (Main.write_loop fuel m).
Proof.
  induction fuel as [|fuel IH]; intros b m Hsame;
    pose proof Hsame as (_ & _ & _ & H4 & H5 & _);
    simpl; rewrite H4, H5;
    destruct (Main._buffer_size m >=? Main._chunk_size m);
    try exact I; try (split; [reflexivity|exact Hsame]).
  destruct (same_transmit Hsame) as (Ho & Hs).
  destruct (Base.transmit b) as [o1 b1], (Main.transmit m) as [o2 m1].
  simpl in Ho, Hs. subst o2. destruct o1 as [[]|[]].
  - now apply IH.
  - destruct (same_recover Hs) as (Ho' & Hs').
    destruct (Base.recover b1) as [o1 b2], (Main.recover m1) as [o2 m2].
    simpl in Ho', Hs'. subst o2. destruct o1 as [[]|e].
    + now apply IH.
    + split; [reflexivity|exact Hs'].
  - split; [reflexivity|exact Hs].
  - split; [reflexivity|exact Hs].
  - split; [reflexivity|exact Hs].
Qed.

Lemma same_start (b : Base.t) (m : Main.t) :
  same_stream b m -> same_result (Base.start b) (Main.start m).
Proof.
  intros Hsame. pose proof Hsame as (H1 & H2 & H3 & H4 & H5 & H6 & H7 & H8).
  unfold same_result, Base.start, Main.start, ResumableUpload.new.
  rewrite H5.
  destruct (Main._chunk_size m mod ResumableUpload.UPLOAD_CHUNK_SIZE =? 0);
    simpl; [|split; [reflexivity|exact Hsame]].
  unfold same_stream, same_upload. simpl.
  rewrite H1. repeat split; auto.
Qed.

Lemma same_write (fuel : nat) (data : bytes) (b : Base.t) (m : Main.t) :
  same_stream b m ->
  same_run (Base.write fuel data b) (Main.write fuel data m).
Proof.
  intros Hsame. unfold Base.write, Main.write.
  pose proof (@same_write_loop fuel _ _ (same_push data Hsame)) as Hloop.
  destruct (Base.write_loop fuel (Base.push data b)) as [[o1 b1]|],
           (Main.write_loop fuel (Main.push data m)) as [[o2 m1]|];
    simpl in Hloop; try contradiction; try exact I.
  destruct Hloop as (Ho & Hs). simpl in Ho, Hs. subst o2.
  destruct o1 as [[]|e]; split; simpl; auto.
Qed.

(** C9. The stream of base.py and the stream of main.py behave alike: from
    states that agree, [read], [tell] and [write] return the same results
    and leave states that agree again, and so does [start], up to the
    content type given to [initiate]; with the content type
    application/octet-stream, [start] builds the same upload object in
    both. *)
Theorem streams_equivalent (b : Base.t) (m : Main.t) :
  same_stream b m ->
  (forall n : Z, same_result (Base.read n b) (Main.read n m))
  /\ Base.tell b = Main.tell m
  /\ (forall (fuel : nat) (data : bytes),
         same_run (Base.write fuel data b) (Main.write fuel data m))
  /\ same_result (Base.start b) (Main.start m)
  /\ (Base._content_type b = "application/octet-stream"%string ->
      fst (Base.start b) = Return tt ->
      Base._request (snd (Base.start b))
      = Main._request (snd (Main.start m))).
Proof.
  intros Hsame. split; [intros n; now apply same_read|].
  split; [now apply same_tell|]. split; [|split].
  - intros fuel data. now apply same_write.
  - now apply same_start.
  - intros Hct. destruct Hsame as (H1 & H2 & _ & _ & H5 & _).
    unfold Base.start, Main.start, ResumableUpload.new. rewrite H5.
    destruct (Main._chunk_size m mod ResumableUpload.UPLOAD_CHUNK_SIZE =? 0);
      simpl; [intros _|intros H; discriminate H].
    now rewrite Hct, H1, H2.
Qed.

Lemma streams_equivalent_witness :
  let b := Base.__init__ rejecting "bucket" "blob"
                         "application/octet-stream" 262144 in
  let m := Main.__init__ rejecting "bucket" "blob" 262144 in
  (forall n : Z, same_result (Base.read n b) (Main.read n m))
  /\ Base.tell b = Main.tell m
  /\ (forall (fuel : nat) (data : bytes),
         same_run (Base.write fuel data b) (Main.write fuel data m))
  /\ same_result (Base.start b) (Main.start m)
  /\ Base._request (snd (Base.start b)) = Main._request (snd (Main.start m)).
Proof.
  intros b m.
  destruct (@streams_equivalent b m)
    as (Hread & Htell & Hwrite & Hstart & Hreq).
  { unfold same_stream. simpl. repeat split. }
  split; [exact Hread|]. split; [exact Htell|]. split; [exact Hwrite|].
  split; [exact Hstart|]. apply Hreq; reflexivity.
Defined.
(** * The callers *)

Lemma read_write_loop_is_write_all (fuel : nat) (reads : list bytes) :
  forall f : t,
    StorageService.read_write_loop fuel reads f
    = write_all fuel (before_eof reads) f.
Proof.
  induction reads as [|b reads IH]; intros f; simpl; [reflexivity|].
  destruct (truthy b); simpl; [|reflexivity].
  destruct (write fuel b f) as [[[n|e] f1]|]; auto.
Qed.

(** [_store_file] is a scoped use of a stream with the default chunk size,
    with the reads of the file up to its end as the writes. *)
Lemma store_file_is_scoped storage_client bucket (fuel : nat)
      (reads : list bytes) filename ctype :
  StorageService._store_file storage_client bucket fuel reads filename ctype
  = scoped fuel
           (__init__ storage_client bucket filename ctype default_chunk_size)
           (before_eof reads).
Proof.
  unfold StorageService._store_file, scoped.
  destruct (__enter__ _) as [[[]|e] f]; [|reflexivity].
  now rewrite read_write_loop_is_write_all.
Qed.

(** A whole upload with the default chunk size against a backend that
    accepts every request: the writes send full chunks, the release sends
    the rest in the one final request, and the object is committed. *)
Lemma upload_accepted transport bucket blob ctype (datas : list bytes) :
  always_accepts transport ->
  exists (fuel : nat) (self : t) (full : list transmission)
         (last : transmission),
    scoped fuel (__init__ transport bucket blob ctype default_chunk_size)
           datas
    = Some (Return tt, self)
    /\ sent_of self = full ++ [last]
    /\ Forall (fun q => len (payload q) = 262144) full
    /\ Forall (fun q => final q = false) full
    /\ final last = true
    /\ Forall accepted (full ++ [last])
    /\ windows full ++ payload last = List.concat datas
    /\ len (payload last) < 262144
    /\ _buffer self = []
    /\ _read self = len (List.concat datas)
    /\ committed_of self = true.
Proof.
  intros Hacc.
  assert (Hchunk : 0 < default_chunk_size) by reflexivity.
  assert (Hmod : default_chunk_size mod 262144 = 0) by reflexivity.
  destruct (@block_returns transport bucket blob ctype default_chunk_size
                          datas Hchunk Hmod Hacc)
    as (body & Hblock).
  destruct (@release_summary _ _ _ _ _ _ _ _ Hchunk Hblock)
    as (last & R1 & R2 & R3 & R4 & R5 & R6 & R7 & _ & R9 & R10 & R11 & _
        & R13 & R14).
  rewrite Hacc in R9. rewrite R9 in R10, R14. simpl in R10.
  exists (Z.to_nat (len (List.concat datas))), (snd (__exit__ None body)),
         (sent_of body), last.
  split.
  { rewrite scoped_block, Hblock.
    change (__exit__ None body) with (stop body) in *.
    destruct (stop body) as [o self]. simpl in R10. now subst o. }
  change default_chunk_size with 262144 in *.
  repeat (split; [assumption|]).
  split; [|auto].
  apply Forall_app. split; [exact R3|]. now repeat constructor.
Qed.

(** X1. [_store_file] uploads the file as it is: against a backend that
    accepts every request it runs to its end, every window it handed over
    was accepted, the windows are the bytes the file returned before its
    first empty read, in order, and the object is committed; nothing stays
    buffered and [tell()] is the size of the file. *)
Theorem store_file_uploads_content storage_client bucket
        (reads : list bytes) filename ctype :
  always_accepts storage_client ->
  exists (fuel : nat) (f : t),
    StorageService._store_file storage_client bucket fuel reads filename
                               ctype
    = Some (Return tt, f)
    /\ windows (sent_of f) = List.concat (before_eof reads)
    /\ Forall accepted (sent_of f)
    /\ committed_of f = true
    /\ _buffer f = []
    /\ tell f = len (List.concat (before_eof reads)).
Proof.
  intros Hacc.
  destruct (@upload_accepted storage_client bucket filename ctype
                             (before_eof reads) Hacc)
    as (fuel & f & full & last & Hrun & H1 & _ & _ & _ & H5 & H6 & _ & H8
        & H9 & H10).
  exists fuel, f. rewrite store_file_is_scoped.
  split; [exact Hrun|]. rewrite H1, windows_last. auto.
Qed.

Lemma store_file_uploads_content_witness :
  exists (fuel : nat) (f : t),
    StorageService._store_file accepting "bucket" fuel
                               [abcde; fgh; []; abcde] "mail.xml" "text/xml"
    = Some (Return tt, f)
    /\ windows (sent_of f) = List.concat (before_eof [abcde; fgh; []; abcde])
    /\ Forall accepted (sent_of f)
    /\ committed_of f = true
    /\ _buffer f = []
    /\ tell f = len (List.concat (before_eof [abcde; fgh; []; abcde])).
Proof.
  apply (@store_file_uploads_content accepting "bucket"
           [abcde; fgh; []; abcde] "mail.xml" "text/xml").
  intros k. reflexivity.
Defined.

(** X2. The requests of [_store_file] against a backend that accepts every
    request: for a file of [n] bytes it sends [n / 262144] requests of
    262144 bytes each, none of them marked final, and then one last request
    with the other [n mod 262144] bytes, which is marked final; so an empty
    file still costs one, empty, request. *)
Theorem store_file_requests storage_client bucket (reads : list bytes)
        filename ctype :
  always_accepts storage_client ->
  exists (fuel : nat) (f : t) (full : list transmission)
         (last : transmission),
    StorageService._store_file storage_client bucket fuel reads filename
                               ctype
    = Some (Return tt, f)
    /\ sent_of f = full ++ [last]
    /\ Forall (fun q => len (payload q) = 262144) full
    /\ Forall (fun q => final q = false) full
    /\ final last = true
    /\ len full = len (List.concat (before_eof reads)) / 262144
    /\ len (payload last) = len (List.concat (before_eof reads)) mod 262144.
Proof.
  intros Hacc.
  destruct (@upload_accepted storage_client bucket filename ctype
                             (before_eof reads) Hacc)
    as (fuel & f & full & last & Hrun & H1 & H2 & H3 & H4 & _ & H6 & H7 & _).
  exists fuel, f, full, last. rewrite store_file_is_scoped.
  apply (f_equal (@len byte)) in H6. rewrite len_app in H6.
  rewrite (len_windows_chunks H2) in H6.
  pose proof (len_nonneg (payload last)).
  repeat split; auto.
  - apply Z.div_unique with (r := len (payload last)); lia.
  - apply Z.mod_unique with (q := len full); lia.
Qed.

Lemma store_file_requests_witness :
  exists (fuel : nat) (f : t) (full : list transmission)
         (last : transmission),
    StorageService._store_file accepting "bucket" fuel [] "empty.xml"
                               "text/xml"
    = Some (Return tt, f)
    /\ sent_of f = full ++ [last]
    /\ Forall (fun q => len (payload q) = 262144) full
    /\ Forall (fun q => final q = false) full
    /\ final last = true
    /\ len full = len (List.concat (before_eof [])) / 262144
    /\ len (payload last) = len (List.concat (before_eof [])) mod 262144.
Proof.
  apply (@store_file_requests accepting "bucket" [] "empty.xml" "text/xml").
  intros k. reflexivity.
Defined.




(** ** The two uploaders *)

Lemma same_read_write_loop (fuel : nat) (reads : list bytes) :
  forall (b : Base.t) (m : Main.t),
    same_stream b m ->
    same_run (StorageService.read_write_loop fuel reads b)
             (EWSMailMessage.read_write_loop fuel reads m).
Proof.
  induction reads as [|buffer reads IH]; intros b m Hsame; simpl.
  - split; [reflexivity|exact Hsame].
  - destruct (truthy buffer); [|split; [reflexivity|exact Hsame]].
    pose proof (@same_write fuel buffer b m Hsame) as Hw.
    destruct (Base.write fuel buffer b) as [[o1 b1]|],
             (Main.write fuel buffer m) as [[o2 m1]|];
      simpl in Hw; try contradiction; try exact I.
    destruct Hw as (Ho & Hs). simpl in Ho, Hs. subst o2.
    destruct o1 as [n|e]; [now apply IH|].
    split; [reflexivity|exact Hs].
Qed.

Lemma same_sent (b : Base.t) (m : Main.t) :
  same_stream b m -> sent_of b = main_sent_of m.
Proof.
  intros (_ & _ & _ & _ & _ & _ & _ & H8).
  unfold sent_of, main_sent_of.
  destruct (Base._request b), (Main._request m); try contradiction; auto.
  apply H8.
Qed.

Lemma uploaders_same_run storage_client bucket path ctype (fuel : nat)
      (reads : list bytes) :
  same_run
    (StorageService._store_file storage_client bucket fuel reads path ctype)
    (EWSMailMessage.write_stream_to_blob storage_client fuel bucket path
                                         reads).
Proof.
  unfold StorageService._store_file, EWSMailMessage.write_stream_to_blob.
  assert (Hsame : same_result
                    (Base.__enter__
                       (Base.__init__ storage_client bucket path ctype
                                      Base.default_chunk_size))
                    (Main.__enter__
                       (Main.__init__ storage_client bucket path
                                      Main.default_chunk_size))).
  { apply same_start. unfold same_stream. simpl. repeat split. }
  destruct Hsame as (Ho0 & Hs0).
  destruct (Base.__enter__ _) as [o0 b0], (Main.__enter__ _) as [o0' m0].
  simpl in Ho0, Hs0. subst o0'.
  destruct o0 as [[]|e0]; [|split; [reflexivity|exact Hs0]].
  pose proof (@same_read_write_loop fuel reads _ _ Hs0) as Hloop.
  destruct (StorageService.read_write_loop fuel reads _) as [[o1 b1]|],
           (EWSMailMessage.read_write_loop fuel reads _) as [[o2 m1]|];
    simpl in Hloop; try contradiction; try exact I.
  destruct Hloop as (Ho & Hs). simpl in Ho, Hs. subst o2.
  destruct o1 as [[]|e].
  - simpl. apply (same_transmit Hs).
  - simpl. split; [reflexivity|exact Hs].
Qed.

(** X4. The uploader of main.py and the one of base.py do the same: for the
    same bucket, object name and reads, [write_stream_to_blob] and
    [_store_file] end alike (or neither ends), having sent the same requests
    and holding the same buffer and cursor, whatever the content type. *)
Theorem uploaders_agree storage_client bucket path ctype (fuel : nat)
        (reads : list bytes) :
  match StorageService._store_file storage_client bucket fuel reads path
                                   ctype,
        EWSMailMessage.write_stream_to_blob storage_client fuel bucket path
                                            reads
  with
  | Some (o1, b), Some (o2, m) =>
      o1 = o2
      /\ sent_of b = main_sent_of m
      /\ Base._buffer b = Main._buffer m
      /\ Base._buffer_size b = Main._buffer_size m
      /\ Base.tell b = Main.tell m
  | None, None => True
  | _, _ => False
  end.
Proof.
  pose proof (uploaders_same_run storage_client bucket path ctype fuel reads)
    as Hrun.
  destruct (StorageService._store_file _ _ _ _ _ _) as [[o1 b]|],
           (EWSMailMessage.write_stream_to_blob _ _ _ _ _) as [[o2 m]|];
    simpl in Hrun; auto.
  destruct Hrun as (Ho & Hs). simpl in Ho, Hs.
  split; [exact Ho|]. split; [now apply same_sent|].
  destruct Hs as (_ & _ & H3 & H4 & _ & H6 & _). auto.
Qed.

(** X5. [write_stream_to_blob] uploads the content as it is: against a
    backend that accepts every request it runs to its end, every window it
    handed over was accepted, and the windows are the bytes the content
    returned before its first empty read, in order, with nothing left in the
    buffer. *)
Theorem write_stream_to_blob_uploads_content storage_client bucket_name path
        (reads : list bytes) :
  always_accepts storage_client ->
  exists (fuel : nat) (f : Main.t),
    EWSMailMessage.write_stream_to_blob storage_client fuel bucket_name path
                                        reads
    = Some (Return tt, f)
    /\ windows (main_sent_of f) = List.concat (before_eof reads)
    /\ Forall accepted (main_sent_of f)
    /\ Main._buffer f = []
    /\ Main.tell f = len (List.concat (before_eof reads)).
Proof.
  intros Hacc.
  destruct (@upload_accepted storage_client bucket_name path
                             "application/octet-stream"
                             (before_eof reads) Hacc)
    as (fuel & f & full & last & Hrun & H1 & _ & _ & _ & H5 & H6 & _ & H8
        & H9 & _).
  pose proof (uploaders_same_run storage_client bucket_name path
                                 "application/octet-stream" fuel reads)
    as Hsame.
  rewrite store_file_is_scoped, Hrun in Hsame.
  destruct (EWSMailMessage.write_stream_to_blob _ _ _ _ _) as [[o m]|]
    eqn:Hmain; [|contradiction].
  destruct Hsame as (Ho & Hs). simpl fst in Ho. simpl snd in Hs.
  exists fuel, m. subst o. split; [exact Hmain|].
  rewrite <- (same_sent Hs), H1, windows_last.
  destruct Hs as (_ & _ & S3 & _ & _ & S6 & _).
  unfold Main.tell. rewrite <- S3, <- S6. auto.
Qed.

Lemma write_stream_to_blob_uploads_content_witness :
  exists (fuel : nat) (f : Main.t),
    EWSMailMessage.write_stream_to_blob accepting fuel "bucket" "mail/a.xml"
                                        [abcde; fgh]
    = Some (Return tt, f)
    /\ windows (main_sent_of f) = List.concat (before_eof [abcde; fgh])
    /\ Forall accepted (main_sent_of f)
    /\ Main._buffer f = []
    /\ Main.tell f = len (List.concat (before_eof [abcde; fgh])).
Proof.
  apply (@write_stream_to_blob_uploads_content accepting "bucket"
           "mail/a.xml" [abcde; fgh]).
  intros k. reflexivity.
Defined.

(** * More on [write] and [read] *)

(** X6. A small write sends at most once: on a stream whose upload object
    transmits and whose backlog is below one chunk, a write of at most one
    chunk leaves the loop after at most one iteration, having sent one
    request when the backlog reached a chunk and none otherwise; it returns
    [len(data)] unless that one request was not accepted. *)
Theorem small_write_sends_at_most_once (fuel : nat) (data : bytes)
        (self : t) :
  good self ->
  _buffer_size self < _chunk_size self ->
  len data <= _chunk_size self ->
  exists (o : outcome Z) (self' : t),
    write (S fuel) data self = Some (o, self')
    /\ (List.length (sent_since self self') <= 1)%nat
    /\ (List.length (sent_since self self') = 1%nat
        <-> _chunk_size self <= _buffer_size self + len data)
    /\ (o = Return (len data) <-> Forall accepted (sent_since self self')).
Proof.
  intros Hgood Hsmall Hdata.
  destruct (Z_lt_le_dec (_buffer_size self + len data) (_chunk_size self))
    as [Hlt|Hle].
  - exists (Return (len data)), (push data self).
    unfold write. rewrite write_loop_exit by exact Hlt.
    split; [reflexivity|]. unfold sent_since.
    change (sent_of (push data self)) with (sent_of self).
    rewrite skipn_all. simpl. split; [lia|].
    split; [split; [discriminate|lia]|]. split; [constructor|reflexivity].
  - pose proof (good_push data Hgood) as Hgood0.
    destruct (transmit_extends Hgood0)
      as (r & Hext & Hout & Hlen & _ & _ & _ & _ & Hinv1 & _).
    destruct Hext as [E1 _ _ E4 E5 _ _ _ _].
    simpl in E1, E4, E5, Hlen. rewrite windows_one in E4.
    change (sent_of (push data self)) with (sent_of self) in E1.
    rewrite Z.min_l in Hlen by exact Hle.
    unfold write. rewrite (@write_loop_enter fuel (push data self) Hle).
    destruct (transmit (push data self)) as [o1 s1].
    simpl fst in *; simpl snd in *.
    assert (Hs1 : _buffer_size s1 < _chunk_size s1) by lia.
    assert (Hone : forall s, sent_of s = sent_of self ++ [r] ->
                             sent_since self s = [r]).
    { intros s Hs. unfold sent_since. rewrite Hs. apply skipn_app_exact. }
    destruct (reply r) eqn:Hreply; simpl in Hout; subst o1.
    + rewrite (@write_loop_exit fuel s1 Hs1).
      eexists. eexists. split; [reflexivity|].
      rewrite (Hone s1 E1). simpl. split; [lia|]. split; [split; auto|].
      split; [repeat constructor; exact Hreply|reflexivity].
    + destruct (@recover_invalid _ Hinv1) as (Hro & Hext2 & _).
      pose proof (ext_sent Hext2) as R1. rewrite app_nil_r in R1.
      destruct (recover s1) as [o2 s2]. simpl fst in *; simpl snd in *.
      subst o2.
      eexists. eexists. split; [reflexivity|].
      rewrite (Hone s2) by congruence. simpl. split; [lia|].
      split; [split; auto|].
      split; [discriminate|].
      intros Hall. inversion Hall as [|? ? Hr _]; subst.
      unfold accepted in Hr. congruence.
    + eexists. eexists. split; [reflexivity|].
      rewrite (Hone s1 E1). simpl. split; [lia|]. split; [split; auto|].
      split; [discriminate|].
      intros Hall. inversion Hall as [|? ? Hr _]; subst.
      unfold accepted in Hr. congruence.
Qed.

Lemma small_write_sends_at_most_once_witness :
  exists (o : outcome Z) (self' : t),
    write 1 abcde (push (zeros 262140) (acquired accepting 262144))
    = Some (o, self')
    /\ (List.length
          (sent_since (push (zeros 262140) (acquired accepting 262144)) self')
        <= 1)%nat
    /\ (List.length
          (sent_since (push (zeros 262140) (acquired accepting 262144)) self')
        = 1%nat
        <-> _chunk_size (push (zeros 262140) (acquired accepting 262144))
            <= _buffer_size (push (zeros 262140) (acquired accepting 262144))
               + len abcde)
    /\ (o = Return (len abcde)
        <-> Forall accepted
                   (sent_since (push (zeros 262140)
                                     (acquired accepting 262144)) self')).
Proof.
  apply (@small_write_sends_at_most_once
           0 abcde (push (zeros 262140) (acquired accepting 262144))).
  - apply good_push, good_acquired; [lia|reflexivity].
  - simpl. rewrite len_zeros by lia. lia.
  - simpl. unfold len. simpl. lia.
Defined.

(** X10. A stream that was never started: [write] keeps the data and returns
    [len(data)] as long as no chunk is full, raises [AttributeError] with
    the data kept in the buffer as soon as one is, and [stop] raises
    [AttributeError] too. *)
Theorem write_before_start (fuel : nat) (data : bytes) (self : t) :
  _request self = None ->
  (_buffer_size self + len data < _chunk_size self ->
   write fuel data self = Some (Return (len data), push data self))
  /\ (_chunk_size self <= _buffer_size self + len data ->
      write (S fuel) data self
      = Some (Raise AttributeError, push data self))
  /\ stop self = (Raise AttributeError, self).
Proof.
  intros Hnone. split; [|split].
  - intros Hlt. unfold write. now rewrite write_loop_exit.
  - intros Hle. unfold write.
    rewrite (@write_loop_enter fuel (push data self) Hle).
    unfold transmit. simpl _request. now rewrite Hnone.
  - unfold stop, transmit. now rewrite Hnone.
Qed.

Lemma write_before_start_witness :
  let self := __init__ accepting "bucket" "blob" "text/xml" 4 in
  write 0 fgh self = Some (Return (len fgh), push fgh self)
  /\ write 1 abcde self = Some (Raise AttributeError, push abcde self)
  /\ stop self = (Raise AttributeError, self).
Proof.
  intros self.
  destruct (@write_before_start 0 fgh self eq_refl) as (Hsmall & _ & Hstop).
  destruct (@write_before_start 0 abcde self eq_refl) as (_ & Hfull & _).
  split; [apply Hsmall; unfold len; simpl; lia|].
  split; [apply Hfull; unfold len; simpl; lia|exact Hstop].
Defined.

Lemma firstn_skipn_add (A : Type) (i j : nat) (l : list A) :
  firstn i l ++ firstn j (skipn i l) = firstn (i + j) l.
Proof.
  revert l. induction i as [|i IH]; intros l; simpl; [reflexivity|].
  destruct l as [|x l]; simpl.
  - now rewrite firstn_nil.
  - now rewrite IH.
Qed.

(** X7. Reads compose: on a consistent buffer, [read(a)] followed by
    [read(b)], for [a, b >= 0], returns in two pieces what [read(a + b)]
    returns in one, and leaves the same stream. *)
Theorem read_read (a b : Z) (self : t) :
  consistent self -> 0 <= a -> 0 <= b ->
  fst (read a self) ++ fst (read b (snd (read a self)))
  = fst (read (a + b) self)
  /\ snd (read b (snd (read a self))) = snd (read (a + b) self).
Proof.
  intros Hcons Ha Hb.
  destruct (@read_consistent a self Hcons Ha) as (A1 & A2 & _ & Hcons1).
  destruct (read_fields a self) as (_ & _ & _ & A4 & A5 & _).
  assert (Hab : 0 <= a + b) by lia.
  destruct (@read_consistent (a + b) self Hcons Hab) as (C1 & C2 & _ & _).
  destruct (@read_consistent b (snd (read a self)) Hcons1 Hb)
    as (B1 & B2 & _ & _).
  cbv zeta in *. unfold consistent in Hcons.
  pose proof (len_nonneg (_buffer self)) as Hpos.
  set (ka := Z.min a (_buffer_size self)) in *.
  assert (Hkb : Z.min b (_buffer_size (snd (read a self)))
                = Z.min (a + b) (_buffer_size self) - ka).
  { rewrite A5. subst ka. lia. }
  assert (Hnat : Z.to_nat (Z.min (a + b) (_buffer_size self))
                 = (Z.to_nat ka
                    + Z.to_nat (Z.min b (_buffer_size (snd (read a self)))))
                     %nat).
  { rewrite Hkb. subst ka. lia. }
  split.
  - rewrite A1, B1, A2, C1, Hnat. apply firstn_skipn_add.
  - destruct (read b (snd (read a self))) as [y s2] eqn:Hy.
    destruct (read (a + b) self) as [z s3] eqn:Hz.
    simpl snd in *.
    assert (Hbuf : _buffer s2 = _buffer s3).
    { rewrite B2, A2, C2, Hnat, skipn_skipn. f_equal. lia. }
    unfold read in Hy, Hz. injection Hy as _ <-. injection Hz as _ <-.
    simpl in Hbuf. simpl. rewrite Hbuf. f_equal; simpl; lia.
Qed.

Lemma read_read_witness :
  fst (read 2 (push abcde (acquired accepting 262144)))
  ++ fst (read 7 (snd (read 2 (push abcde (acquired accepting 262144)))))
  = fst (read (2 + 7) (push abcde (acquired accepting 262144)))
  /\ snd (read 7 (snd (read 2 (push abcde (acquired accepting 262144)))))
     = snd (read (2 + 7) (push abcde (acquired accepting 262144))).
Proof.
  apply (@read_read 2 7 (push abcde (acquired accepting 262144)));
    [reflexivity|lia|lia].
Defined.

(** X8. Nothing to read: on a consistent buffer, [read(n)] with [n >= 0]
    returns b"" and leaves the stream as it is exactly when [n] is 0 or the
    buffer is empty; otherwise it returns at least one byte. *)
Theorem read_nothing (n : Z) (self : t) :
  consistent self -> 0 <= n ->
  (n = 0 \/ _buffer self = [] -> read n self = ([], self))
  /\ (0 < n -> _buffer self <> [] -> 0 < len (fst (read n self))).
Proof.
  intros Hcons Hn.
  destruct (@read_consistent n self Hcons Hn) as (H1 & H2 & H3 & _).
  cbv zeta in *. unfold consistent in Hcons. split.
  - intros Hzero.
    assert (Hk : Z.min n (_buffer_size self) = 0).
    { destruct Hzero as [-> | Hempty].
      - pose proof (len_nonneg (_buffer self)). lia.
      - rewrite Hcons, Hempty, len_nil. lia. }
    pose proof (len_nonneg (_buffer self)) as Hlen.
    unfold read. rewrite Hk.
    rewrite slice_to_nonneg, slice_from_nonneg by lia. simpl.
    destruct self; simpl. f_equal. f_equal; lia.
  - intros Hpos Hne. rewrite H3.
    assert (0 < len (_buffer self)).
    { destruct (_buffer self); [congruence|].
      unfold len. simpl List.length. lia. }
    lia.
Qed.

Lemma read_nothing_witness :
  let self := push abcde (acquired accepting 262144) in
  read 0 self = ([], self) /\ 0 < len (fst (read 2 self)).
Proof.
  intros self.
  assert (Hcons : consistent self) by reflexivity.
  assert (H0 : 0 <= 0) by lia. assert (H2 : 0 <= 2) by lia.
  split.
  - apply (proj1 (@read_nothing 0 self Hcons H0)). now left.
  - apply (proj2 (@read_nothing 2 self Hcons H2)); [lia|discriminate].
Defined.

(** Cutting a byte string into chunks of [chunk] bytes and a rest shorter
    than a chunk can be done in one way only. *)
Lemma chunking_unique (chunk : Z) (l1 : list bytes) :
  forall (l2 : list bytes) (r1 r2 : bytes),
    0 < chunk ->
    Forall (fun x => len x = chunk) l1 ->
    Forall (fun x => len x = chunk) l2 ->
    len r1 < chunk -> len r2 < chunk ->
    List.concat l1 ++ r1 = List.concat l2 ++ r2 ->
    l1 = l2 /\ r1 = r2.
Proof.
  induction l1 as [|x l1 IH]; intros [|y l2] r1 r2 Hc H1 H2 Hr1 Hr2 Heq;
    simpl in Heq.
  - auto.
  - exfalso. pose proof (Forall_inv H2) as Hy. simpl in Hy.
    apply (f_equal (@len byte)) in Heq. rewrite !len_app in Heq.
    pose proof (len_nonneg (List.concat l2)). pose proof (len_nonneg r2).
    lia.
  - exfalso. pose proof (Forall_inv H1) as Hx. simpl in Hx.
    apply (f_equal (@len byte)) in Heq. rewrite !len_app in Heq.
    pose proof (len_nonneg (List.concat l1)). pose proof (len_nonneg r1).
    lia.
  - pose proof (Forall_inv H1) as Hx. pose proof (Forall_inv_tail H1) as H1'.
    pose proof (Forall_inv H2) as Hy. pose proof (Forall_inv_tail H2) as H2'.
    simpl in Hx, Hy.
    rewrite <- !app_assoc in Heq.
    destruct (@app_split_at _ _ _ _ _ Heq Hy) as (Hyx & Hrest).
    assert (Hxy : x = y).
    { destruct (@app_split_at byte chunk (x ++ List.concat l1 ++ r1) x
                              (List.concat l1 ++ r1) eq_refl Hx)
        as (Hxx & _).
      rewrite Hyx. exact Hxx. }
    clear Hyx Hrest. subst y. apply app_inv_head in Heq.
    destruct (IH l2 r1 r2 Hc H1' H2' Hr1 Hr2 Heq) as (-> & ->). auto.
Qed.

(** X9. How the caller cuts its data into writes does not matter: on a
    stream with a positive chunk size, as [__enter__] leaves it, writing the
    pieces one by one or their concatenation in one write, when both
    return, sends requests with the same payloads and leaves the same
    buffer and the same cursor; and against a backend that accepts every
    request, with a chunk size it allows, both do return. *)
Theorem writes_split_irrelevant transport bucket blob ctype (chunk : Z)
        (datas : list bytes) :
  0 < chunk ->
  let self := snd (__enter__ (__init__ transport bucket blob ctype chunk)) in
  (forall (fuel fuel' : nat) (self1 self2 : t),
      write_all fuel datas self = Some (Return tt, self1) ->
      write_all fuel' [List.concat datas] self = Some (Return tt, self2) ->
      map payload (sent_of self1) = map payload (sent_of self2)
      /\ _buffer self1 = _buffer self2
      /\ _buffer_size self1 = _buffer_size self2
      /\ tell self1 = tell self2)
  /\ (chunk mod 262144 = 0 -> always_accepts transport ->
      exists (fuel : nat) (self1 self2 : t),
        write_all fuel datas self = Some (Return tt, self1)
        /\ write_all fuel [List.concat datas] self = Some (Return tt, self2)).
Proof.
  intros Hchunk self.
  pose proof (@sane_enter transport bucket blob ctype chunk Hchunk) as Hsane.
  destruct (entered_fields transport bucket blob ctype chunk)
    as (F1 & F2 & F3 & F4 & F5 & F6 & _).
  fold self in Hsane, F1, F2, F3, F4, F5, F6. split.
  - intros fuel fuel' self1 self2 Hrun1 Hrun2.
    destruct (@write_all_sane _ _ _ _ _ Hsane Hrun1)
      as (new1 & A1 & (_ & A2 & _) & _ & A4 & A5 & A6).
    destruct (@write_all_sane _ _ _ _ _ Hsane Hrun2)
      as (new2 & B1 & (_ & B2 & _) & _ & B4 & B5 & B6).
    destruct (A6 eq_refl) as (Abuf & Alt).
    destruct (B6 eq_refl) as (Bbuf & Blt).
    rewrite F1 in A1, B1. rewrite F2 in Abuf, Bbuf. rewrite F4 in A5, B5.
    rewrite F3, F5 in *. simpl in A1, B1, Abuf, Bbuf, A5, B5.
    rewrite app_nil_r in Bbuf.
    specialize (Alt Hchunk). specialize (Blt Hchunk).
    unfold consistent in A2, B2.
    destruct (@chunking_unique chunk (map payload new1) (map payload new2)
                               (_buffer self1) (_buffer self2) Hchunk)
      as (Hpay & Hbuf).
    + apply Forall_map. exact A4.
    + apply Forall_map. exact B4.
    + lia.
    + lia.
    + fold (windows new1). fold (windows new2). congruence.
    + rewrite A1, B1. unfold tell. rewrite A5, B5, A2, B2, Hbuf.
      unfold windows. rewrite Hpay. auto.
  - intros Hmod Hacc.
    assert (Hgood : good self).
    { apply good_enter; [exact Hchunk|now apply enter_returns]. }
    exists (Z.to_nat (len (List.concat datas))).
    destruct (@write_all_returns datas (Z.to_nat (len (List.concat datas)))
                                 self Hgood)
      as (self1 & Hrun1); [now rewrite F6|rewrite F3; lia|].
    destruct (@write_all_returns [List.concat datas]
                                 (Z.to_nat (len (List.concat datas)))
                                 self Hgood)
      as (self2 & Hrun2);
      [now rewrite F6|rewrite F3; simpl; rewrite app_nil_r; lia|].
    exists self1, self2. auto.
Qed.

Lemma writes_split_irrelevant_witness :
  exists (fuel : nat) (self1 self2 : t),
    write_all fuel [zeros 300000; abcde; fgh] (acquired accepting 262144)
    = Some (Return tt, self1)
    /\ write_all fuel [List.concat [zeros 300000; abcde; fgh]]
                 (acquired accepting 262144)
       = Some (Return tt, self2)
    /\ map payload (sent_of self1) = map payload (sent_of self2)
    /\ _buffer self1 = _buffer self2
    /\ _buffer_size self1 = _buffer_size self2
    /\ tell self1 = tell self2.
Proof.
  assert (Hchunk : 0 < 262144) by lia.
  destruct (@writes_split_irrelevant accepting "bucket" "mail/attachment.pdf"
                                     "application/pdf" 262144
                                     [zeros 300000; abcde; fgh] Hchunk)
    as (Hsame & Hruns).
  destruct Hruns as (fuel & self1 & self2 & Hrun1 & Hrun2);
    [reflexivity|intros k; reflexivity|].
  exists fuel, self1, self2. split; [exact Hrun1|]. split; [exact Hrun2|].
  exact (Hsame fuel fuel self1 self2 Hrun1 Hrun2).
Defined.

(** * Offsets *)

(** X17. The offsets of a scoped upload are contiguous: on a stream with a
    positive chunk size, whatever the backend answers, the first request
    starts at byte 0 and every request starts at the byte where the one
    before it ended, the flush of the release included. *)
Theorem scoped_offsets_contiguous transport bucket blob ctype (chunk : Z)
        (fuel : nat) (datas : list bytes) (o : outcome unit) (self : t) :
  0 < chunk ->
  scoped fuel (__init__ transport bucket blob ctype chunk) datas
  = Some (o, self) ->
  offsets_from 0 (sent_of self)
  /\ tell self = len (windows (sent_of self)).
Proof.
  intros Hchunk Hscoped. rewrite scoped_block in Hscoped.
  destruct (block fuel (__init__ transport bucket blob ctype chunk) datas)
    as [[[[]|e] body]|] eqn:Hblock; [| |discriminate].
  - destruct (@release_summary _ _ _ _ _ _ _ _ Hchunk Hblock)
      as (last & R1 & _ & _ & _ & _ & R6 & _ & R8 & _ & _ & _ & _ & R13 & _).
    injection Hscoped as Hexit.
    change (__exit__ None body) with (stop body) in *.
    rewrite Hexit in R1, R13. simpl in R1, R13.
    unfold tell. rewrite R1, R13, windows_last, R6.
    split; [exact R8|reflexivity].
  - injection Hscoped as _ <-.
    destruct (@block_new _ _ _ _ _ _ _ _ _ Hchunk Hblock)
      as (_ & _ & _ & _ & _ & B6 & B7 & _).
    unfold tell. auto.
Qed.

Lemma scoped_offsets_contiguous_witness :
  exists (o : outcome unit) (self : t),
    scoped 1 (__init__ accepting "bucket" "blob" "text/xml" 262144)
           [zeros 300000; fgh]
    = Some (o, self)
    /\ offsets_from 0 (sent_of self)
    /\ tell self = len (windows (sent_of self)).
Proof.
  assert (Hruns :
            match scoped 1 (__init__ accepting "bucket" "blob" "text/xml"
                                     262144)
                         [zeros 300000; fgh] with
            | Some _ => true
            | None => false
            end = true) by (vm_compute; reflexivity).
  revert Hruns.
  destruct (scoped 1 (__init__ accepting "bucket" "blob" "text/xml" 262144)
                   [zeros 300000; fgh]) as [[o self]|] eqn:Hscoped;
    [|intros H; discriminate H].
  intros _. exists o, self. split; [reflexivity|].
  apply (@scoped_offsets_contiguous accepting "bucket" "blob" "text/xml"
           262144 1 [zeros 300000; fgh] o self); [lia|exact Hscoped].
Defined.
(** * Attachment names *)

Lemma str_count_nonneg (c : ascii) (s : string) : 0 <= str_count c s.
Proof.
  induction s as [|x s IH]; simpl; [lia|]. destruct (Ascii.eqb x c); lia.
Qed.

Lemma str_count_app (c : ascii) (a b : string) :
  str_count c (a ++ b) = str_count c a + str_count c b.
Proof. induction a as [|x a IH]; simpl; [reflexivity|]. rewrite IH. lia. Qed.

Lemma string_map_app (f : ascii -> ascii) (a b : string) :
  (string_map f (a ++ b) = string_map f a ++ string_map f b)%string.
Proof. induction a as [|x a IH]; simpl; [reflexivity|]. now rewrite IH. Qed.

Lemma string_map_length (f : ascii -> ascii) (s : string) :
  String.length (string_map f s) = String.length s.
Proof. induction s as [|x s IH]; simpl; [reflexivity|]. now rewrite IH. Qed.

Lemma str_length_app (a b : string) :
  String.length (a ++ b) = (String.length a + String.length b)%nat.
Proof. induction a as [|x a IH]; simpl; [reflexivity|]. now rewrite IH. Qed.

Lemma string_map_map (f g : ascii -> ascii) (s : string) :
  string_map f (string_map g s) = string_map (fun c => f (g c)) s.
Proof. induction s as [|x s IH]; simpl; [reflexivity|]. now rewrite IH. Qed.

Lemma string_map_ext (f g : ascii -> ascii) (s : string) :
  (forall c, f c = g c) -> string_map f s = string_map g s.
Proof.
  intros Hfg. induction s as [|x s IH]; simpl; [reflexivity|].
  now rewrite IH, Hfg.
Qed.

(** Replacing every occurrence is a map. *)
Lemma str_replace_all (old new : ascii) (s : string) :
  forall count : Z,
    count < 0 ->
    str_replace old new count s
    = string_map (fun c => if Ascii.eqb c old then new else c) s.
Proof.
  induction s as [|x s IH]; intros count Hc; simpl; [reflexivity|].
  destruct (count =? 0) eqn:E; [apply Z.eqb_eq in E; lia|].
  destruct (Ascii.eqb x old); rewrite IH by lia; reflexivity.
Qed.

Lemma string_map_none (old new : ascii) (s : string) :
  str_count old s = 0 ->
  string_map (fun c => if Ascii.eqb c old then new else c) s = s.
Proof.
  induction s as [|x s IH]; simpl; [reflexivity|].
  pose proof (str_count_nonneg old s).
  destruct (Ascii.eqb x old); intros Hc; [lia|]. rewrite IH by lia.
  reflexivity.
Qed.

(** Replacing as many occurrences as a prefix holds replaces all of them in
    the prefix and leaves the rest alone. *)
Lemma str_replace_prefix (old new : ascii) (a rest : string) :
  (str_replace old new (str_count old a) (a ++ rest)
   = string_map (fun c => if Ascii.eqb c old then new else c) a ++ rest)
    %string.
Proof.
  induction a as [|x a IH]; simpl.
  - destruct rest; reflexivity.
  - pose proof (str_count_nonneg old a) as Hpos.
    destruct (Ascii.eqb x old) eqn:Ex.
    + destruct (1 + str_count old a =? 0) eqn:E;
        [apply Z.eqb_eq in E; lia|].
      replace (1 + str_count old a - 1) with (str_count old a) by lia.
      now rewrite IH.
    + simpl. destruct (str_count old a =? 0) eqn:E.
      * apply Z.eqb_eq in E. now rewrite (string_map_none old new a E).
      * now rewrite IH.
Qed.

Lemma str_count_map_other (c : ascii) (f : ascii -> ascii) (s : string) :
  (forall x, Ascii.eqb (f x) c = Ascii.eqb x c) ->
  str_count c (string_map f s) = str_count c s.
Proof.
  intros Hf. induction s as [|x s IH]; simpl; [reflexivity|].
  now rewrite Hf, IH.
Qed.

Lemma str_count_map_gone (c : ascii) (f : ascii -> ascii) (s : string) :
  (forall x, Ascii.eqb (f x) c = false) ->
  str_count c (string_map f s) = 0.
Proof.
  intros Hf. induction s as [|x s IH]; simpl; [reflexivity|].
  now rewrite Hf, IH.
Qed.

(** A string with a dot splits at its last dot. *)
Lemma split_last_dot (s : string) :
  0 < str_count "." s ->
  exists stem ext : string,
    s = (stem ++ "." ++ ext)%string /\ str_count "." ext = 0.
Proof.
  induction s as [|x s IH]; simpl; [lia|].
  destruct (Z_lt_le_dec 0 (str_count "." s)) as [Hmore|Hnone].
  - intros _. destruct (IH Hmore) as (stem & ext & -> & Hext).
    exists (String x stem), ext. auto.
  - pose proof (str_count_nonneg "." s).
    destruct (Ascii.eqb x ".") eqn:Ex; [|lia].
    intros _. apply Ascii.eqb_eq in Ex. subst x.
    exists EmptyString, s. split; [reflexivity|lia].
Qed.

(** The cleaned name of a name without a dot, and of a name cut at its last
    dot. *)
Lemma clean_without_dot (name : string) :
  str_count "." name = 0 ->
  EWSMailMessage.clean_attachment_name name
  = string_map (underscore [" "; "-"]%char) name.
Proof.
  intros Hdots. unfold EWSMailMessage.clean_attachment_name.
  rewrite Hdots. simpl Z.sub.
  rewrite !str_replace_all by lia.
  rewrite (string_map_none "." "_").
  - rewrite string_map_map. apply string_map_ext. intros c.
    unfold underscore. simpl.
    destruct (Ascii.eqb c " ") eqn:E1; simpl; [reflexivity|].
    destruct (Ascii.eqb c "-"); reflexivity.
  - rewrite str_count_map_other; [exact Hdots|].
    intros x. destruct (Ascii.eqb x " ") eqn:E; [|reflexivity].
    apply Ascii.eqb_eq in E. subst x. reflexivity.
Qed.

Lemma clean_with_dot (stem ext : string) :
  str_count "." ext = 0 ->
  EWSMailMessage.clean_attachment_name (stem ++ "." ++ ext)
  = (string_map (underscore [" "; "."; "-"]%char) stem
     ++ "." ++ string_map (underscore [" "; "-"]%char) ext)%string.
Proof.
  intros Hext. unfold EWSMailMessage.clean_attachment_name.
  set (sp := fun c : ascii => if Ascii.eqb c " " then "_"%char else c).
  set (dot := fun c : ascii => if Ascii.eqb c "." then "_"%char else c).
  set (hy := fun c : ascii => if Ascii.eqb c "-" then "_"%char else c).
  assert (Hsp : forall x, Ascii.eqb (sp x) "." = Ascii.eqb x ".").
  { intros x. unfold sp. destruct (Ascii.eqb x " ") eqn:E; [|reflexivity].
    apply Ascii.eqb_eq in E. subst x. reflexivity. }
  rewrite (@str_replace_all " " "_" (stem ++ "." ++ ext) (-1)) by lia.
  fold sp.
  rewrite !str_count_app, Hext. simpl (str_count "." ".").
  replace (str_count "." stem + (1 + 0) - 1) with (str_count "." stem)
    by lia.
  rewrite !string_map_app. simpl (string_map sp ".").
  rewrite <- (str_count_map_other "." sp stem Hsp).
  rewrite str_replace_prefix. fold dot.
  rewrite str_replace_all by lia. fold hy.
  rewrite !string_map_app. simpl (string_map hy ".").
  rewrite !string_map_map. f_equal; [|f_equal].
  - apply string_map_ext. intros c. unfold hy, dot, sp, underscore. simpl.
    destruct (Ascii.eqb c " ") eqn:E1; simpl; [reflexivity|].
    destruct (Ascii.eqb c ".") eqn:E2; simpl; [reflexivity|].
    destruct (Ascii.eqb c "-"); reflexivity.
  - apply string_map_ext. intros c. unfold hy, sp, underscore. simpl.
    destruct (Ascii.eqb c " ") eqn:E1; simpl; [reflexivity|].
    destruct (Ascii.eqb c "-"); reflexivity.
Qed.

Ltac underscore_cases :=
  let x := fresh "x" in
  intros x; unfold underscore; simpl;
  repeat match goal with
         | |- context [Ascii.eqb x ?c] =>
             let E := fresh "E" in
             destruct (Ascii.eqb x c) eqn:E; simpl;
             try (apply Ascii.eqb_eq in E; subst x)
         end;
  try reflexivity; try assumption; try congruence.

Lemma underscore_idempotent (targets : list ascii) (s : string) :
  existsb (Ascii.eqb "_") targets = false ->
  string_map (underscore targets) (string_map (underscore targets) s)
  = string_map (underscore targets) s.
Proof.
  intros Hnot. rewrite string_map_map. apply string_map_ext. intros c.
  unfold underscore at 1 3. 
  destruct (existsb (Ascii.eqb c) targets) eqn:E.
  - unfold underscore. rewrite E, Hnot. reflexivity.
  - unfold underscore. now rewrite E, E.
Qed.

(** X11. The cleaned attachment name has the length of the name, no space
    and no hyphen, and one dot if the name has any dot, none otherwise. *)
Theorem clean_name_shape (name : string) :
  String.length (EWSMailMessage.clean_attachment_name name)
  = String.length name
  /\ str_count " " (EWSMailMessage.clean_attachment_name name) = 0
  /\ str_count "-" (EWSMailMessage.clean_attachment_name name) = 0
  /\ str_count "." (EWSMailMessage.clean_attachment_name name)
     = Z.min 1 (str_count "." name).
Proof.
  pose proof (str_count_nonneg "." name) as Hpos.
  destruct (Z_lt_le_dec 0 (str_count "." name)) as [Hdot|Hnone].
  - destruct (split_last_dot name Hdot) as (stem & ext & -> & Hext).
    rewrite (@clean_with_dot stem ext Hext).
    rewrite !str_length_app, !string_map_length.
    rewrite !str_count_app. simpl (str_count _ ".").
    rewrite !(str_count_map_gone " "), !(str_count_map_gone "-"),
      (str_count_map_gone ".")
      by underscore_cases.
    rewrite (str_count_map_other ".") by underscore_cases.
    pose proof (str_count_nonneg "." stem).
    rewrite Hext. repeat split; lia.
  - assert (Hzero : str_count "." name = 0) by lia.
    rewrite (@clean_without_dot name Hzero), string_map_length.
    rewrite (str_count_map_gone " "), (str_count_map_gone "-")
      by underscore_cases.
    rewrite (str_count_map_other ".") by underscore_cases.
    repeat split; lia.
Qed.

(** X12. What the cleaned name is: in a name without a dot, spaces and
    hyphens become underscores; in a name with a dot, the last dot stays,
    every space, dot and hyphen before it becomes an underscore, and so does
    every space and hyphen after it. *)
Theorem clean_name_keeps_last_dot (name : string) :
  (str_count "." name = 0 ->
   EWSMailMessage.clean_attachment_name name
   = string_map (underscore [" "; "-"]%char) name)
  /\ (forall stem ext : string,
         name = (stem ++ "." ++ ext)%string ->
         str_count "." ext = 0 ->
         EWSMailMessage.clean_attachment_name name
         = (string_map (underscore [" "; "."; "-"]%char) stem
            ++ "." ++ string_map (underscore [" "; "-"]%char) ext)%string).
Proof.
  split; [apply clean_without_dot|].
  intros stem ext -> Hext. now apply clean_with_dot.
Qed.

Lemma clean_name_keeps_last_dot_witness :
  EWSMailMessage.clean_attachment_name "no dots-here"
  = string_map (underscore [" "; "-"]%char) "no dots-here"
  /\ EWSMailMessage.clean_attachment_name "my file-v1.2.final.pdf"
     = (string_map (underscore [" "; "."; "-"]%char) "my file-v1.2.final"
        ++ "." ++ string_map (underscore [" "; "-"]%char) "pdf")%string.
Proof.
  split.
  - apply (proj1 (clean_name_keeps_last_dot "no dots-here")). reflexivity.
  - apply (proj2 (clean_name_keeps_last_dot "my file-v1.2.final.pdf")
                 "my file-v1.2.final"%string "pdf"%string); reflexivity.
Defined.

(** X13. Cleaning is idempotent: the cleaned name of a cleaned name is the
    cleaned name. *)
Theorem clean_name_idempotent (name : string) :
  EWSMailMessage.clean_attachment_name
    (EWSMailMessage.clean_attachment_name name)
  = EWSMailMessage.clean_attachment_name name.
Proof.
  pose proof (str_count_nonneg "." name) as Hpos.
  destruct (Z_lt_le_dec 0 (str_count "." name)) as [Hdot|Hnone].
  - destruct (split_last_dot name Hdot) as (stem & ext & -> & Hext).
    rewrite (@clean_with_dot stem ext Hext).
    rewrite clean_with_dot.
    + now rewrite !underscore_idempotent by reflexivity.
    + rewrite (str_count_map_other ".") by underscore_cases. exact Hext.
  - assert (Hzero : str_count "." name = 0) by lia.
    rewrite (@clean_without_dot name Hzero).
    rewrite clean_without_dot.
    + now rewrite underscore_idempotent by reflexivity.
    + rewrite (str_count_map_other ".") by underscore_cases. exact Hzero.
Qed.

(** * Message paths *)

Lemma str_app_inj (a b c d : string) :
  String.length a = String.length b ->
  (a ++ c = b ++ d)%string -> a = b /\ c = d.
Proof.
  revert b. induction a as [|x a IH]; intros [|y b] Hlen Heq;
    simpl in *; try discriminate; auto.
  injection Heq as -> Heq. injection Hlen as Hlen.
  destruct (IH b Hlen Heq) as (-> & ->). auto.
Qed.

Lemma zeros_string_length (k : nat) : String.length (zeros_string k) = k.
Proof. induction k as [|k IH]; simpl; [reflexivity|]. now rewrite IH. Qed.

Lemma zero_pad_length (width n : nat) :
  String.length (zero_pad width n)
  = Nat.max width (String.length (str_of_nat n)).
Proof.
  unfold zero_pad. rewrite str_length_app, zeros_string_length. lia.
Qed.

(** Numbers below 10000 have at most four digits, numbers below 100 at most
    two: checked on all of them. *)
Lemma digits_below (bound : Z) (width : nat) :
  forallb (fun n => Nat.leb (String.length (str_of_nat n)) width)
          (seq 0 (Z.to_nat bound)) = true ->
  forall n : nat,
    Z.of_nat n < bound -> (String.length (str_of_nat n) <= width)%nat.
Proof.
  intros Hall n Hn. rewrite forallb_forall in Hall.
  apply Nat.leb_le. apply Hall. apply in_seq. lia.
Qed.

Lemma four_digits (n : nat) :
  Z.of_nat n <= 9999 -> String.length (zero_pad 4 n) = 4%nat.
Proof.
  intros Hn. rewrite zero_pad_length.
  assert (String.length (str_of_nat n) <= 4)%nat.
  { apply (@digits_below 10000 4); [vm_compute; reflexivity|lia]. }
  lia.
Qed.

Lemma two_digits (n : nat) :
  Z.of_nat n <= 99 -> String.length (zero_pad 2 n) = 2%nat.
Proof.
  intros Hn. rewrite zero_pad_length.
  assert (String.length (str_of_nat n) <= 2)%nat.
  { apply (@digits_below 100 2); [vm_compute; reflexivity|lia]. }
  lia.
Qed.

(** Reading a zero-padded number back gives the number. *)
Lemma uint_of_zeros (k : nat) (s : string) (d : Decimal.uint) :
  DecimalString.NilEmpty.uint_of_string s = Some d ->
  exists d',
    DecimalString.NilEmpty.uint_of_string (zeros_string k ++ s) = Some d'
    /\ Nat.of_uint d' = Nat.of_uint d.
Proof.
  intros Hs. induction k as [|k (d' & Hd' & Hval)]; simpl.
  - exists d. auto.
  - exists (Decimal.D0 d'). rewrite Hd'. split; [reflexivity|]. exact Hval.
Qed.

Lemma zero_pad_value (width n : nat) :
  exists d,
    DecimalString.NilEmpty.uint_of_string (zero_pad width n) = Some d
    /\ Nat.of_uint d = n.
Proof.
  assert (Hs : DecimalString.NilEmpty.uint_of_string (str_of_nat n) = Some (Nat.to_uint n)).
  { unfold str_of_nat.
    assert (Hnn : Nat.to_uint n <> Decimal.Nil).
    { rewrite <- (DecimalNat.Unsigned.of_to n) at 1. rewrite DecimalNat.Unsigned.to_of.
      apply DecimalFacts.unorm_nonnil. }
    pose proof (DecimalString.NilZero.usu (Nat.to_uint n) Hnn) as Hu.
    unfold DecimalString.NilZero.uint_of_string,
      DecimalString.NilZero.string_of_uint in *.
    destruct (Nat.to_uint n) eqn:E; try congruence;
      simpl in Hu |- *; exact Hu. }
  destruct (@uint_of_zeros (width - String.length (str_of_nat n))
                           _ _ Hs) as (d & Hd & Hval).
  exists d. split; [exact Hd|]. rewrite Hval. apply DecimalNat.Unsigned.of_to.
Qed.

Lemma zero_pad_inj (width n m : nat) :
  zero_pad width n = zero_pad width m -> n = m.
Proof.
  intros Heq.
  destruct (zero_pad_value width n) as (d1 & H1 & V1).
  destruct (zero_pad_value width m) as (d2 & H2 & V2).
  rewrite Heq in H1. congruence.
Qed.

Lemma valid_widths (d : datetime) :
  valid_datetime d ->
  String.length (zero_pad 4 (year d)) = 4%nat
  /\ String.length (zero_pad 2 (month d)) = 2%nat
  /\ String.length (zero_pad 2 (day d)) = 2%nat
  /\ String.length (zero_pad 2 (hour d)) = 2%nat
  /\ String.length (zero_pad 2 (minute d)) = 2%nat
  /\ String.length (zero_pad 2 (second d)) = 2%nat.
Proof.
  intros (Hy & Hm & Hd & Hh & Hmi & Hs).
  split; [apply four_digits; lia|].
  repeat split; apply two_digits; lia.
Qed.

(** X14. For a datetime within Python's ranges, the message id has exactly
    16 characters and the dated path is the user name followed by exactly 28
    characters. *)
Theorem message_id_width (username : string) (now : datetime) :
  valid_datetime now ->
  String.length (EWSMailMessage.message_id now) = 16%nat
  /\ String.length (EWSMailMessage.dated_path username now)
     = (String.length username + 28)%nat.
Proof.
  intros Hvalid.
  destruct (valid_widths Hvalid) as (Hy & Hm & Hd & Hh & Hmi & Hs).
  assert (Hid : String.length (EWSMailMessage.message_id now) = 16%nat).
  { unfold EWSMailMessage.message_id. rewrite !str_length_app.
    rewrite Hy, Hm, Hd, Hh, Hmi, Hs. reflexivity. }
  split; [exact Hid|].
  unfold EWSMailMessage.dated_path. rewrite !str_length_app.
  rewrite Hid, Hy, Hm, Hd. simpl. lia.
Qed.

Lemma message_id_width_witness :
  String.length
    (EWSMailMessage.message_id
       {| year := 2021; month := 3; day := 7;
          hour := 9; minute := 5; second := 0 |}) = 16%nat
  /\ String.length
       (EWSMailMessage.dated_path
          "user@example.com"
          {| year := 2021; month := 3; day := 7;
             hour := 9; minute := 5; second := 0 |})
     = (String.length "user@example.com" + 28)%nat.
Proof.
  apply (@message_id_width "user@example.com"
           {| year := 2021; month := 3; day := 7;
              hour := 9; minute := 5; second := 0 |}).
  unfold valid_datetime. simpl. lia.
Defined.

Lemma message_id_inj (d1 d2 : datetime) :
  valid_datetime d1 -> valid_datetime d2 ->
  EWSMailMessage.message_id d1 = EWSMailMessage.message_id d2 ->
  d1 = d2.
Proof.
  intros Hv1 Hv2 Heq.
  destruct (valid_widths Hv1) as (Hy1 & Hm1 & Hd1 & Hh1 & Hmi1 & Hs1).
  destruct (valid_widths Hv2) as (Hy2 & Hm2 & Hd2 & Hh2 & Hmi2 & Hs2).
  unfold EWSMailMessage.message_id in Heq.
  apply str_app_inj in Heq as (Ey & Heq); [|congruence].
  apply str_app_inj in Heq as (Em & Heq); [|congruence].
  apply str_app_inj in Heq as (Ed & Heq); [|congruence].
  apply str_app_inj in Heq as (_ & Heq); [|reflexivity].
  apply str_app_inj in Heq as (Eh & Heq); [|congruence].
  apply str_app_inj in Heq as (Emi & Heq); [|congruence].
  apply str_app_inj in Heq as (Es & _); [|congruence].
  apply zero_pad_inj in Ey, Em, Ed, Eh, Emi, Es.
  destruct d1, d2; simpl in *; congruence.
Qed.

(** X15. Message ids and dated paths tell sending times apart: two
    datetimes within Python's ranges with the same message id, or with the
    same dated path for one user name, are the same to the second. *)
Theorem message_paths_distinct (username : string) (d1 d2 : datetime) :
  valid_datetime d1 -> valid_datetime d2 ->
  (EWSMailMessage.message_id d1 = EWSMailMessage.message_id d2 -> d1 = d2)
  /\ (EWSMailMessage.dated_path username d1
      = EWSMailMessage.dated_path username d2 -> d1 = d2).
Proof.
  intros Hv1 Hv2. split; [now apply message_id_inj|].
  intros Heq.
  destruct (valid_widths Hv1) as (Hy1 & Hm1 & Hd1 & _).
  destruct (valid_widths Hv2) as (Hy2 & Hm2 & Hd2 & _).
  unfold EWSMailMessage.dated_path in Heq.
  apply str_app_inj in Heq as (_ & Heq); [|reflexivity].
  apply str_app_inj in Heq as (_ & Heq); [|reflexivity].
  apply str_app_inj in Heq as (_ & Heq); [|congruence].
  apply str_app_inj in Heq as (_ & Heq); [|reflexivity].
  apply str_app_inj in Heq as (_ & Heq); [|congruence].
  apply str_app_inj in Heq as (_ & Heq); [|reflexivity].
  apply str_app_inj in Heq as (_ & Heq); [|congruence].
  apply str_app_inj in Heq as (_ & Heq); [|reflexivity].
  now apply message_id_inj.
Qed.

Lemma message_paths_distinct_witness :
  let d1 := {| year := 2021; month := 3; day := 7;
               hour := 9; minute := 5; second := 0 |} in
  let d2 := {| year := 2021; month := 3; day := 7;
               hour := 9; minute := 5; second := 1 |} in
  EWSMailMessage.dated_path "user@example.com" d1
  <> EWSMailMessage.dated_path "user@example.com" d2.
Proof.
  intros d1 d2 Heq.
  assert (Hv1 : valid_datetime d1) by (unfold valid_datetime; simpl; lia).
  assert (Hv2 : valid_datetime d2) by (unfold valid_datetime; simpl; lia).
  pose proof (proj2 (@message_paths_distinct "user@example.com" d1 d2
                                             Hv1 Hv2) Heq) as Hsame.
  discriminate Hsame.
Defined.

(** X16. What [set_message_path] returns: the dated path exactly when no
    original_email.html exists under it, and otherwise the dated path
    followed by an underscore and the random number in decimal, which is a
    longer, different path. *)
Theorem set_message_path_collision (check_gcs_blob_exists : string -> bool)
        (randbits : nat) (username : string) (now : datetime) :
  let path := EWSMailMessage.dated_path username now in
  let result :=
    EWSMailMessage.set_message_path check_gcs_blob_exists randbits username
                                    now in
  (check_gcs_blob_exists (path ++ "/original_email.html")%string = false
   <-> result = path)
  /\ (check_gcs_blob_exists (path ++ "/original_email.html")%string = true
      <-> result = (path ++ "_" ++ str_of_nat randbits)%string)
  /\ (String.length path <= String.length result)%nat.
Proof.
  intros path result. subst result.
  unfold EWSMailMessage.set_message_path. fold path.
  assert (Hlonger : (path ++ "_" ++ str_of_nat randbits)%string <> path).
  { intros Heq. apply (f_equal String.length) in Heq.
    rewrite !str_length_app in Heq. simpl in Heq. lia. }
  destruct (check_gcs_blob_exists (path ++ "/original_email.html")%string).
  - split; [split; [discriminate|intros H; now elim Hlonger]|].
    split; [split; auto|]. rewrite str_length_app. lia.
  - split; [split; auto|].
    split; [split; [discriminate|intros H; symmetry in H; now elim Hlonger]|].
    lia.
Qed.

